(** * Gnip-Trend-Detection: the reference library of transformed series

    A shallow embedding of [src/trends/library.py]: the windowed series
    [TopicSeries], the four transformation stages, [Library] with
    [add_series] and [combine], the auxiliary [sizing] transform and
    [load_library].

    Conventions of the embedding.
    - A Python exception is a value [Raise e] of the type [result]; a
      method of [Library] is a function from the object's state to an
      outcome and the state it leaves behind, so what a failing call has
      already written stays visible.
    - Python integers are [Z]; list slicing follows CPython, negative
      bounds included.
    - The numbers of a series are kept abstract behind the class
      [Number] (and [Math] for [math.pow] and [math.log10]).  Two
      instances are given: IEEE binary64 (Rocq's primitive floats), the
      arithmetic the program runs in, and the real numbers, the
      arithmetic the prose of the specification calculates in. *)

From Stdlib Require Import String ZArith List Lia Bool Reals Lra Floats.
From Equations Require Import Equations.
Import ListNotations.

Set Implicit Arguments.

(** ** Python values: exceptions, slices, the random source *)

Module Py.

Inductive exn : Set :=
| AssertionError
| EOFError
| KeyError
| ValueError
| TypeError
| ZeroDivisionError
| OverflowError
| IOError
| UnpicklingError.

Inductive result (A : Type) : Type :=
| Ok (a : A)
| Raise (e : exn).

Arguments Ok {A} a.
Arguments Raise {A} e.

Definition bind {A B : Type} (m : result A) (k : A -> result B) : result B :=
  match m with
  | Ok a => k a
  | Raise e => Raise e
  end.

(** [for x in xs: out.append(f(x))], stopping at the first exception. *)
Fixpoint for_each {A B : Type} (f : A -> result B) (xs : list A) : result (list B) :=
  match xs with
  | [] => Ok []
  | x :: rest =>
      bind (f x) (fun y => bind (for_each f rest) (fun ys => Ok (y :: ys)))
  end.

(** [len(xs)] as a Python int. *)
Definition len {A : Type} (xs : list A) : Z := Z.of_nat (length xs).

(** How CPython places one bound of a slice of a sequence of length [n]:
    a negative bound counts from the end, and the outcome is clamped
    to [0..n]. *)
Definition slice_bound (n i : Z) : Z :=
  if (i <? 0)%Z then Z.max 0 (i + n) else Z.min i n.

(** [xs[lo:hi]]. *)
Definition slice {A : Type} (xs : list A) (lo hi : Z) : list A :=
  let start := slice_bound (len xs) lo in
  let stop := slice_bound (len xs) hi in
  firstn (Z.to_nat (stop - start)) (skipn (Z.to_nat start) xs).

(** [random.randint(a, b)]: [ValueError] on an empty range, otherwise a
    value of [a..b].  [draw] is what the generator supplies; every value
    of the range is the outcome of some draw. *)
Definition randint (a b draw : Z) : result Z :=
  if (b <? a)%Z then Raise ValueError else Ok (a + draw mod (b - a + 1))%Z.

End Py.

Export Py.

Notation "'do' x <- m ; k" := (bind m (fun x => k))
  (at level 10, x name, m at level 100, k at level 200).

(** ** The numbers of a series *)

Class Number (F : Type) : Type := {
  of_int : Z -> F;
  add : F -> F -> F;
  sub : F -> F -> F;
  div : F -> F -> F;
  absf : F -> F;
  eqb : F -> F -> bool;
  ltb : F -> F -> bool
}.

Class Math (F : Type) : Type := {
  math_pow : F -> F -> result F;
  math_log10 : F -> result F
}.

(** *** IEEE binary64 *)

Definition float_of_int (z : Z) : float :=
  SF2Prim (binary_normalize prec emax z 0 false).

#[export] Instance float_Number : Number float := {|
  of_int := float_of_int;
  add := PrimFloat.add;
  sub := PrimFloat.sub;
  div := PrimFloat.div;
  absf := PrimFloat.abs;
  eqb := PrimFloat.eqb;
  ltb := PrimFloat.ltb
|}.

(** *** Real numbers *)

Definition Reqb (x y : R) : bool := if Req_dec_T x y then true else false.
Definition Rltb (x y : R) : bool := if Rlt_dec x y then true else false.

#[export] Instance R_Number : Number R := {|
  of_int := IZR;
  add := Rplus;
  sub := Rminus;
  div := Rdiv;
  absf := Rabs;
  eqb := Reqb;
  ltb := Rltb
|}.

(** The least magnitude that binary64 rounds to infinity: half an ulp
    above the largest double, [2^1024 - 2^970]. *)
Definition double_overflow : R := IZR (2 ^ 1024 - 2 ^ 970).

(** The range check of [math.pow]: a result that no double can hold is
    an [OverflowError] ("math range error").  A result too small for a
    double is not an error. *)
Definition in_double_range (r : R) : result R :=
  if Rlt_dec (Rabs r) double_overflow then Ok r else Raise OverflowError.

(** [math.pow(x, y)] on reals: a zero base gives 0 for a positive
    exponent, 1 for a zero exponent and a domain error for a negative one;
    a negative base needs an integral exponent; and the power has to be
    in the range of a double. *)
Definition R_pow (x y : R) : result R :=
  if Rlt_dec 0 x then in_double_range (Rpower x y)
  else if Req_dec_T x 0 then
    if Rlt_dec 0 y then Ok 0%R
    else if Req_dec_T y 0 then Ok 1%R
    else Raise ValueError
  else if Req_dec_T y (IZR (Int_part y))
       then in_double_range (powerRZ x (Int_part y))
  else Raise ValueError.

(** [math.log10(x)]: a domain error unless [x > 0]. *)
Definition R_log10 (x : R) : result R :=
  if Rlt_dec 0 x then Ok (ln x / ln 10)%R else Raise ValueError.

#[export] Instance R_Math : Math R := {|
  math_pow := R_pow;
  math_log10 := R_log10
|}.

(** ** TopicSeries *)

Definition TopicSeries (A : Type) : Type := list A.

Section Windows.

Context {A : Type}.

(** The generator of [get_subseries] from loop index [index] on: the
    sequence of the values it yields, in order, until the [while]
    condition fails. *)
Equations? get_subseries_from (self : TopicSeries A) (length_ index : Z)
  : list (list A) by wf (Z.to_nat (len self - length_ - index + 1)) lt :=
  get_subseries_from self length_ index
    with Z_le_gt_dec (index + length_) (len self) => {
    | left _ := slice self index (index + length_)
                :: get_subseries_from self length_ (index + 1);
    | right _ := [] }.
Proof. lia. Qed.

Definition get_subseries (self : TopicSeries A) (length_ : Z) : list (list A) :=
  get_subseries_from self length_ 0.

End Windows.

(** ** Configuration *)

Section Model.

Context {F : Type} {num : Number F}.

Record Config : Type := {
  reference_length : Z;
  n_smooth : Z;
  alpha : F;
  is_trend : option bool   (* absent until [add_series] writes it *)
}.

(** The dictionary a caller passes as [config=...]: the keys it holds. *)
Record Overrides : Type := {
  o_reference_length : option Z;
  o_n_smooth : option Z;
  o_alpha : option F;
  o_is_trend : option bool
}.

Definition override {A : Type} (new : option A) (old : A) : A :=
  match new with
  | Some a => a
  | None => old
  end.

(** [config.update(d)]. *)
Definition update (c : Config) (d : Overrides) : Config := {|
  reference_length := override (o_reference_length d) (reference_length c);
  n_smooth := override (o_n_smooth d) (n_smooth c);
  alpha := override (o_alpha d) (alpha c);
  is_trend := match o_is_trend d with
              | Some b => Some b
              | None => is_trend c
              end
|}.

(** The defaults of the constructor; [1.2] is the quotient [12/10], which
    binary64 rounds to the literal's value. *)
Definition default_config : Config := {|
  reference_length := 210;
  n_smooth := 80;
  alpha := div (of_int 12) (of_int 10);
  is_trend := None
|}.

Definition set_is_trend (b : bool) (c : Config) : Config := {|
  reference_length := reference_length c;
  n_smooth := n_smooth c;
  alpha := alpha c;
  is_trend := Some b
|}.

(** ** The transformation stages *)

(** [float(pt) / size]. *)
Definition truediv (pt : F) (size : Z) : result F :=
  if eqb (of_int size) (of_int 0) then Raise ZeroDivisionError
  else Ok (div pt (of_int size)).

(** [sum(xs)]: from 0, left to right. *)
Definition sum (xs : list F) : F := fold_left add xs (of_int 0).

Definition unit_normalization (series : list F) (config : Config)
  : result (list F) :=
  let size := len series in
  for_each (fun pt => truediv pt size) series.

Section WithMath.

Context {math : Math F}.

Fixpoint spike_loop (alpha : F) (prev_pt : F) (series : list F)
  : result (list F) :=
  match series with
  | [] => Ok []
  | pt :: rest =>
      do new_pt <- (if eqb pt (of_int 0) then Ok (of_int 0)
                    else math_pow (absf (sub pt prev_pt)) alpha);
      do new_series <- spike_loop alpha pt rest;
      Ok (new_pt :: new_series)
  end.

Definition spike_normalization (series : list F) (config : Config)
  : result (list F) :=
  spike_loop (alpha config) (of_int 0) series.

(** The loop of [smoothing]; [queue] is the deque, oldest point first. *)
Fixpoint smoothing_loop (N_smooth : Z) (queue : list F) (series : list F)
  : list F :=
  match series with
  | [] => []
  | pt :: rest =>
      let queue := queue ++ [pt] in
      let queue := if (N_smooth <? len queue)%Z then tl queue else queue in
      sum queue :: smoothing_loop N_smooth queue rest
  end.

Definition smoothing (series : list F) (config : Config) : result (list F) :=
  Ok (smoothing_loop (n_smooth config) [] series).

(** [min(xs)]: [ValueError] on an empty sequence. *)
Definition py_min (xs : list F) : result F :=
  match xs with
  | [] => Raise ValueError
  | x :: rest => Ok (fold_left (fun m y => if ltb y m then y else m) rest x)
  end.

Definition logarithmic_scaling (series : list F) (config : Config)
  : result (list F) :=
  do series_min <- py_min series;
  for_each (fun pt => math_log10 (add pt (of_int 1))) series.

(** ** Reference sizing *)

(** One turn of the scan for the maximum: the state is
    [(max_idx, max_pt, idx)]. *)
Definition scan_step (st : option Z * F * Z) (pt : F) : option Z * F * Z :=
  let '(max_idx, max_pt, idx) := st in
  if ltb max_pt pt then (Some idx, pt, (idx + 1)%Z)
  else (max_idx, max_pt, (idx + 1)%Z).

Definition scan_max (series : list F) : option Z * F * Z :=
  fold_left scan_step series (None, of_int (-5000), 0%Z).

Definition sizing (draw : Z) (series : list F) (config : Config)
  : result (list F) :=
  let size_r := reference_length config in
  do trend <- match is_trend config with
              | Some b => Ok b
              | None => Raise KeyError
              end;
  if trend then
    match fst (fst (scan_max series)) with
    | Some max_idx => Ok (slice series (max_idx - size_r) max_idx)
    | None => Raise TypeError   (* [None - size_r] *)
    end
  else
    do index <- randint 0 (len series - size_r) draw;
    Ok (slice series index (index + size_r)).

(** ** Library *)

Definition transformation : Type := list F -> Config -> result (list F).

Record Library : Type := {
  trends : list (TopicSeries F);
  non_trends : list (TopicSeries F);
  config : Config;
  transformations : list transformation
}.

(** A method: the outcome of the call and the object afterwards. *)
Definition method (A : Type) : Type := Library -> result A * Library.

Definition ret {A : Type} (a : A) : method A := fun self => (Ok a, self).

Definition raise {A : Type} (e : exn) : method A := fun self => (Raise e, self).

Definition seq_m {A B : Type} (m : method A) (k : A -> method B) : method B :=
  fun self =>
    match m self with
    | (Ok a, self') => k a self'
    | (Raise e, self') => (Raise e, self')
    end.

Definition read {A : Type} (f : Library -> A) : method A :=
  fun self => (Ok (f self), self).

Definition write (f : Library -> Library) : method unit :=
  fun self => (Ok tt, f self).

Definition assert (b : bool) : method unit :=
  if b then ret tt else raise AssertionError.

Definition set_trends (ts : list (TopicSeries F)) (self : Library) : Library := {|
  trends := ts;
  non_trends := non_trends self;
  config := config self;
  transformations := transformations self
|}.

Definition set_non_trends (ts : list (TopicSeries F)) (self : Library) : Library := {|
  trends := trends self;
  non_trends := ts;
  config := config self;
  transformations := transformations self
|}.

Definition set_config (c : Config) (self : Library) : Library := {|
  trends := trends self;
  non_trends := non_trends self;
  config := c;
  transformations := transformations self
|}.

(** [xs == []]. *)
Definition is_empty {A : Type} (xs : list A) : bool :=
  match xs with
  | [] => true
  | _ :: _ => false
  end.

Definition set_up_transformations : list transformation :=
  [] ++ [spike_normalization] ++ [smoothing] ++ [unit_normalization]
     ++ [logarithmic_scaling].

(** The keyword arguments of the constructor: only [config] is read. *)
Record Kwargs : Type := {
  kw_config : option Overrides
}.

Definition no_kwargs : Kwargs := {| kw_config := None |}.

(** [Library.__init__], called with the keyword arguments [kwargs]. *)
Definition Library_init (kwargs : Kwargs) : result Library :=
  do d <- match kw_config kwargs with
          | Some d => Ok d
          | None => Raise KeyError   (* [kwargs["config"]] *)
          end;
  Ok {| trends := [];
        non_trends := [];
        config := update default_config d;
        transformations := set_up_transformations |}.

Definition run_transformations (ts : list transformation) (c : Config)
  (series : list F) : result (list F) :=
  fold_left (fun acc t => do s <- acc; t s c) ts (Ok series).

Definition transform_input (series : list F) : method (list F) :=
  fun self =>
    (run_transformations (transformations self) (config self) series, self).

Definition add_series (series : list F) (is_trend : bool) : method unit :=
  seq_m (write (fun self => set_config (set_is_trend is_trend (config self)) self))
    (fun _ =>
  seq_m (transform_input series) (fun series =>
  if is_trend
  then write (fun self => set_trends (trends self ++ [series]) self)
  else write (fun self => set_non_trends (non_trends self ++ [series]) self))).

Definition combine (lib : Library) : method unit :=
  seq_m (if negb (is_empty (trends lib))
         then seq_m (read trends) (fun mine =>
              seq_m (assert (is_empty mine)) (fun _ =>
              write (set_trends (trends lib))))
         else ret tt) (fun _ =>
  if negb (is_empty (non_trends lib))
  then seq_m (read non_trends) (fun mine =>
       seq_m (assert (is_empty mine)) (fun _ =>
       write (set_non_trends (non_trends lib))))
  else ret tt).

(** ** Persistence *)

Section Persistence.

(** The pickle decoder of a non-empty stream: the wire format is the
    serializer's, not this module's. *)
Variable decode : list Byte.byte -> result Library.

(** [pickle.load(f)]: an empty stream is [EOFError]. *)
Definition pickle_load (content : list Byte.byte) : result Library :=
  match content with
  | [] => Raise EOFError
  | _ :: _ => decode content
  end.

(** The files the process can read. *)
Definition files : Type := string -> option (list Byte.byte).

Definition open (fs : files) (file_name : string) : result (list Byte.byte) :=
  match fs file_name with
  | Some content => Ok content
  | None => Raise IOError
  end.

Definition load_library (fs : files) (file_name : string) : result Library :=
  match (do f <- open fs file_name; pickle_load f) with
  | Raise EOFError => Library_init no_kwargs   (* [Library()] *)
  | r => r
  end.

(** The pickle encoder, the serializer's as well. *)
Variable encode : Library -> list Byte.byte.

(** [open(file_name, "w")] followed by the write: the file is created or
    replaced. *)
Definition write_file (fs : files) (file_name : string)
  (content : list Byte.byte) : files :=
  fun name => if String.eqb name file_name then Some content else fs name.

(** [save_library(library, file_name)]: the files afterwards. *)
Definition save_library (library : Library) (fs : files) (file_name : string)
  : files :=
  write_file fs file_name (encode library).

(** [os.path.exists(os.path.join(os.getcwd(), file_name))]: the path
    [open(file_name)] resolves. *)
Definition path_exists (fs : files) (file_name : string) : bool :=
  match fs file_name with
  | Some _ => true
  | None => false
  end.

(** [merge_library(library, file_name)], as a method of [library]: the
    value returned is [library] itself, in the state the call leaves. *)
Definition merge_library (fs : files) (file_name : string) : method unit :=
  fun library =>
    if path_exists fs file_name then
      match load_library fs file_name with
      | Ok lib_from_file => combine lib_from_file library
      | Raise e => (Raise e, library)
      end
    else (Ok tt, library).

End Persistence.

End WithMath.

End Model.

Arguments Config F : clear implicits.
Arguments Overrides F : clear implicits.
Arguments transformation F : clear implicits.
Arguments Library F : clear implicits.
Arguments method F A : clear implicits.
Arguments Kwargs F : clear implicits.

(** * Properties *)

(** ** Slices *)

Lemma len_nonneg {A : Type} (xs : list A) : (0 <= len xs)%Z.
Proof. unfold len. lia. Qed.

Lemma slice_inside {A : Type} (xs : list A) (lo hi : Z) :
  (0 <= lo)%Z -> (lo <= hi)%Z -> (hi <= len xs)%Z ->
  slice xs lo hi = firstn (Z.to_nat (hi - lo)) (skipn (Z.to_nat lo) xs).
Proof.
  intros Hlo Hle Hhi. unfold slice, slice_bound.
  destruct (Z.ltb_spec lo 0); [lia|].
  destruct (Z.ltb_spec hi 0); [lia|].
  rewrite !Z.min_l by lia. reflexivity.
Qed.

Lemma slice_inside_len {A : Type} (xs : list A) (lo hi : Z) :
  (0 <= lo)%Z -> (lo <= hi)%Z -> (hi <= len xs)%Z ->
  len (slice xs lo hi) = (hi - lo)%Z.
Proof.
  intros Hlo Hle Hhi. rewrite slice_inside by assumption.
  unfold len in *. rewrite length_firstn, length_skipn. lia.
Qed.

(** ** C2: the windows of [get_subseries] *)

Section WindowFacts.

Context {A : Type}.

(** The generator started at [index] yields one slice per offset from
    [index] up to [len self - L], whatever the sign of [L]. *)
Lemma get_subseries_from_offsets (self : TopicSeries A) (L : Z) :
  forall (n : nat) (index : Z),
    (0 <= index)%Z ->
    n = Z.to_nat (len self - L - index + 1) ->
    get_subseries_from self L index
    = map (fun i => slice self (Z.of_nat i) (Z.of_nat i + L))
          (seq (Z.to_nat index) n).
Proof.
  induction n as [|n IH]; intros index Hidx Hn;
    rewrite get_subseries_from_equation_1;
    destruct (Z_le_gt_dec (index + L) (len self)) as [Hle|Hgt]; simpl.
  - lia.
  - reflexivity.
  - rewrite Z2Nat.id by lia. f_equal.
    rewrite (IH (index + 1)%Z) by lia.
    replace (Z.to_nat (index + 1)) with (S (Z.to_nat index)) by lia.
    reflexivity.
  - lia.
Qed.

End WindowFacts.

(** C2. For a series of length N and a window length L (a length: not
    negative), [get_subseries] yields exactly max(0, N-L+1) windows; the
    window of rank i is the contiguous slice of length L that starts at
    offset i, so the offsets are 0, 1, ..., N-L in increasing order; and
    nothing is yielded when L > N. *)
Theorem get_subseries_windows (A : Type) (self : TopicSeries A) (L : Z) :
  (0 <= L)%Z ->
  get_subseries self L
  = map (fun i => firstn (Z.to_nat L) (skipn i self))
        (seq 0 (Z.to_nat (Z.max 0 (len self - L + 1))))
  /\ length (get_subseries self L) = Z.to_nat (Z.max 0 (len self - L + 1))
  /\ Forall (fun w => len w = L) (get_subseries self L)
  /\ (forall i, (i < length (get_subseries self L))%nat ->
        nth i (get_subseries self L) []
        = slice self (Z.of_nat i) (Z.of_nat i + L))
  /\ ((len self < L)%Z -> get_subseries self L = []).
Proof.
  intros HL.
  set (count := Z.to_nat (Z.max 0 (len self - L + 1))).
  assert (Hoff : get_subseries self L
                 = map (fun i => slice self (Z.of_nat i) (Z.of_nat i + L))
                       (seq 0 count)).
  { unfold get_subseries.
    rewrite (get_subseries_from_offsets self L (n := count) (index := 0%Z));
      [reflexivity | lia | unfold count; lia]. }
  assert (Hin : forall i, In i (seq 0 count) ->
                  (Z.of_nat i + L <= len self)%Z).
  { intros i Hi. apply in_seq in Hi. unfold count in Hi. lia. }
  assert (Hmap : get_subseries self L
                 = map (fun i => firstn (Z.to_nat L) (skipn i self))
                       (seq 0 count)).
  { rewrite Hoff. apply map_ext_in. intros i Hi.
    rewrite slice_inside by (specialize (Hin i Hi); lia).
    replace (Z.of_nat i + L - Z.of_nat i)%Z with L by lia.
    rewrite Nat2Z.id. reflexivity. }
  assert (Hlen : length (get_subseries self L) = count).
  { rewrite Hoff, length_map, length_seq. reflexivity. }
  repeat split.
  - exact Hmap.
  - exact Hlen.
  - rewrite Hoff. apply Forall_forall. intros w Hw.
    apply in_map_iff in Hw. destruct Hw as [i [<- Hi]].
    rewrite slice_inside_len by (specialize (Hin i Hi); lia). lia.
  - intros i Hi. rewrite Hoff.
    rewrite Hlen in Hi.
    rewrite (nth_indep _ [] (slice self (Z.of_nat count) (Z.of_nat count + L)))
      by (rewrite length_map, length_seq; exact Hi).
    rewrite (map_nth (fun i => slice self (Z.of_nat i) (Z.of_nat i + L))).
    rewrite seq_nth by exact Hi. reflexivity.
  - intros Hgt. rewrite Hmap.
    replace count with 0%nat by (unfold count; lia). reflexivity.
Qed.

(** The scenario of the specification: [get_subseries(3)] on
    [[10,20,30,40]]. *)
Lemma get_subseries_windows_witness :
  get_subseries [10; 20; 30; 40]%Z 3 = [[10; 20; 30]; [20; 30; 40]]%Z.
Proof.
  exact (proj1 (get_subseries_windows [10; 20; 30; 40]%Z (L := 3)
                  ltac:(discriminate))).
Defined.

(** ** C1, C9: [combine] *)

Section CombineFacts.

Context {F : Type}.

Lemma is_empty_true {A : Type} (xs : list A) : is_empty xs = true <-> xs = [].
Proof. destruct xs; simpl; split; intros H; try reflexivity; discriminate. Qed.

Lemma is_empty_false {A : Type} (xs : list A) : is_empty xs = false <-> xs <> [].
Proof.
  destruct xs; simpl; split; intros H; try reflexivity; try discriminate.
  now elim H.
Qed.

Lemma nil_or_not {A : Type} (xs : list A) : {xs = []} + {xs <> []}.
Proof. destruct xs; [left; reflexivity | right; discriminate]. Qed.

(** One guarded assignment of [combine], for either label. *)
Definition absorb (get : Library F -> list (TopicSeries F))
  (set : list (TopicSeries F) -> Library F -> Library F)
  (lib : Library F) : method F unit :=
  if negb (is_empty (get lib))
  then seq_m (read get) (fun mine =>
       seq_m (assert (is_empty mine)) (fun _ => write (set (get lib))))
  else ret tt.

Lemma combine_absorb (lib : Library F) :
  combine lib
  = seq_m (absorb trends (@set_trends F) lib)
      (fun _ => absorb non_trends (@set_non_trends F) lib).
Proof. reflexivity. Qed.

Lemma absorb_nothing get set (lib self : Library F) :
  get lib = [] -> absorb get set lib self = (Ok tt, self).
Proof. intros H. unfold absorb. rewrite H. reflexivity. Qed.

Lemma absorb_fresh get set (lib self : Library F) :
  get lib <> [] -> get self = [] ->
  absorb get set lib self = (Ok tt, set (get lib) self).
Proof.
  intros Hl Hs. unfold absorb, seq_m, read, assert, write.
  apply is_empty_false in Hl. rewrite Hl. simpl. rewrite Hs. reflexivity.
Qed.

Lemma absorb_collision get set (lib self : Library F) :
  get lib <> [] -> get self <> [] ->
  absorb get set lib self = (Raise AssertionError, self).
Proof.
  intros Hl Hs. unfold absorb, seq_m, read, assert, write.
  apply is_empty_false in Hl. apply is_empty_false in Hs.
  rewrite Hl. simpl. rewrite Hs. reflexivity.
Qed.

End CombineFacts.

(** C1. [combine]: when [lib.trends] is not empty, [self.trends] has to be
    empty and is then replaced by [lib.trends]; the same for
    [non_trends]; when both libraries hold entries under one label the
    call stops with [AssertionError] and that label's list of [self] is
    neither overwritten nor merged; combining with an empty library
    changes nothing. *)
Theorem combine_contract (F : Type) (self lib : Library F) :
  (* a call that returns normally *)
  (fst (combine lib self) = Ok tt ->
     (trends lib <> [] ->
        trends self = [] /\ trends (snd (combine lib self)) = trends lib)
     /\ (non_trends lib <> [] ->
        non_trends self = []
        /\ non_trends (snd (combine lib self)) = non_trends lib))
  (* the precondition, label by label, is also enough *)
  /\ (trends lib <> [] -> trends self = [] ->
        trends (snd (combine lib self)) = trends lib)
  /\ ((trends lib = [] \/ trends self = []) ->
      (non_trends lib = [] \/ non_trends self = []) ->
        fst (combine lib self) = Ok tt)
  (* collisions *)
  /\ (trends lib <> [] -> trends self <> [] ->
        combine lib self = (Raise AssertionError, self))
  /\ (non_trends lib <> [] -> non_trends self <> [] ->
        fst (combine lib self) = Raise AssertionError
        /\ non_trends (snd (combine lib self)) = non_trends self)
  (* the empty library *)
  /\ (trends lib = [] -> non_trends lib = [] ->
        combine lib self = (Ok tt, self)).
Proof.
  rewrite combine_absorb. unfold seq_m.
  destruct (nil_or_not (trends lib)) as [Tl|Tl];
  destruct (nil_or_not (trends self)) as [Ts|Ts];
  destruct (nil_or_not (non_trends lib)) as [Nl|Nl];
  destruct (nil_or_not (non_trends self)) as [Ns|Ns];
  repeat first
    [ rewrite (absorb_nothing trends (@set_trends F) lib self Tl)
    | rewrite (absorb_fresh trends (@set_trends F) lib self Tl Ts)
    | rewrite (absorb_collision trends (@set_trends F) lib self Tl Ts)
    | rewrite (absorb_nothing non_trends (@set_non_trends F) lib _ Nl)
    | rewrite (absorb_fresh non_trends (@set_non_trends F) lib _ Nl)
        by exact Ns
    | rewrite (absorb_collision non_trends (@set_non_trends F) lib _ Nl)
        by exact Ns ];
  simpl;
  repeat match goal with
         | |- _ /\ _ => split
         | |- _ -> _ => intro
         | H : _ \/ _ |- _ => destruct H
         end;
  try reflexivity; try assumption; try contradiction; try discriminate;
  try congruence.
Qed.

(** Sample libraries over the reals. *)
Definition sample_lib (ts ns : list (TopicSeries R)) : Library R := {|
  trends := ts;
  non_trends := ns;
  config := default_config;
  transformations := set_up_transformations
|}.

(** A library holding only trends absorbs one holding only non-trends,
    and two libraries that both hold trends collide. *)
Lemma combine_contract_witness :
  fst (combine (sample_lib [] [[2%R]]) (sample_lib [[1%R]] [])) = Ok tt
  /\ combine (sample_lib [[3%R]] []) (sample_lib [[1%R]] [])
     = (Raise AssertionError, sample_lib [[1%R]] []).
Proof.
  pose proof (combine_contract (sample_lib [[1%R]] []) (sample_lib [] [[2%R]]))
    as [_ [_ [Hok _]]].
  pose proof (combine_contract (sample_lib [[1%R]] []) (sample_lib [[3%R]] []))
    as [_ [_ [_ [Hcol _]]]].
  split.
  - apply Hok; [left; reflexivity | right; reflexivity].
  - apply Hcol; discriminate.
Defined.

(** C9. [combine] is not atomic: with [lib.trends] non-empty, [self.trends]
    empty and both [non_trends] non-empty, the call fails with
    [AssertionError] after [self.trends] has been replaced by
    [lib.trends]; [self] is left with that one change. *)
Theorem combine_not_atomic (F : Type) (self lib : Library F) :
  trends lib <> [] -> trends self = [] ->
  non_trends lib <> [] -> non_trends self <> [] ->
  combine lib self = (Raise AssertionError, set_trends (trends lib) self)
  /\ trends (snd (combine lib self)) = trends lib
  /\ non_trends (snd (combine lib self)) = non_trends self.
Proof.
  intros Tl Ts Nl Ns.
  assert (E : combine lib self
              = (Raise AssertionError, set_trends (trends lib) self)).
  { rewrite combine_absorb. unfold seq_m.
    rewrite (absorb_fresh trends (@set_trends F) lib self Tl Ts).
    rewrite (absorb_collision non_trends (@set_non_trends F) lib _ Nl)
      by exact Ns.
    reflexivity. }
  rewrite E. repeat split.
Qed.

Lemma combine_not_atomic_witness :
  combine (sample_lib [[3%R]] [[4%R]]) (sample_lib [] [[2%R]])
  = (Raise AssertionError, sample_lib [[3%R]] [[2%R]]).
Proof.
  refine (proj1 (combine_not_atomic (sample_lib [] [[2%R]])
                   (sample_lib [[3%R]] [[4%R]]) _ _ _ _));
    try reflexivity; discriminate.
Defined.

(** ** The stages keep the length *)

Section StageFacts.

Context {F : Type} {num : Number F} {math : Math F}.

Lemma for_each_length {A B : Type} (f : A -> result B) (xs : list A) (ys : list B) :
  for_each f xs = Ok ys -> length ys = length xs.
Proof.
  revert ys. induction xs as [|x xs IH]; simpl; intros ys H.
  - injection H as <-. reflexivity.
  - destruct (f x) as [y|e]; simpl in H; [|discriminate].
    destruct (for_each f xs) as [ys'|e]; simpl in H; [|discriminate].
    injection H as <-. simpl. f_equal. apply IH. reflexivity.
Qed.

Lemma spike_loop_length (a prev : F) (series out : list F) :
  spike_loop a prev series = Ok out -> length out = length series.
Proof.
  revert prev out. induction series as [|pt rest IH]; simpl; intros prev out H.
  - injection H as <-. reflexivity.
  - destruct (if eqb pt (of_int 0) then Ok (of_int 0)
              else math_pow (absf (sub pt prev)) a) as [y|e];
      simpl in H; [|discriminate].
    destruct (spike_loop a pt rest) as [ys|e] eqn:E; simpl in H; [|discriminate].
    injection H as <-. simpl. f_equal. exact (IH _ _ E).
Qed.

Lemma smoothing_loop_length (N : Z) (queue series : list F) :
  length (smoothing_loop N queue series) = length series.
Proof.
  revert queue. induction series as [|pt rest IH]; simpl; intros queue.
  - reflexivity.
  - f_equal. apply IH.
Qed.

Lemma unit_normalization_length (series out : list F) (c : Config F) :
  unit_normalization series c = Ok out -> length out = length series.
Proof. apply for_each_length. Qed.

Lemma logarithmic_scaling_length (series out : list F) (c : Config F) :
  logarithmic_scaling series c = Ok out ->
  length out = length series /\ series <> [].
Proof.
  unfold logarithmic_scaling. destruct series as [|pt rest].
  - discriminate.
  - simpl py_min. cbn [bind]. intros H. split; [|discriminate].
    exact (for_each_length _ _ H).
Qed.

(** The list [set_up_transformations] builds, run by [transform_input]:
    the four stages chained, each on the output of the one before. *)
Definition pipeline (series : list F) (c : Config F) : result (list F) :=
  do s1 <- spike_normalization series c;
  do s2 <- smoothing s1 c;
  do s3 <- unit_normalization s2 c;
  logarithmic_scaling s3 c.

Lemma set_up_transformations_list :
  set_up_transformations
  = [spike_normalization; smoothing; unit_normalization; logarithmic_scaling].
Proof. reflexivity. Qed.

Lemma run_transformations_pipeline (series : list F) (c : Config F) :
  run_transformations set_up_transformations c series = pipeline series c.
Proof.
  unfold run_transformations, pipeline. simpl.
  destruct (spike_normalization series c); reflexivity.
Qed.

Lemma pipeline_length (series out : list F) (c : Config F) :
  pipeline series c = Ok out -> length out = length series /\ series <> [].
Proof.
  unfold pipeline, spike_normalization, smoothing. intros H.
  destruct (spike_loop (alpha c) (of_int 0) series) as [s1|e] eqn:E1;
    simpl in H; [|discriminate].
  destruct (unit_normalization _ c) as [s3|e] eqn:E3; simpl in H; [|discriminate].
  apply logarithmic_scaling_length in H. destruct H as [H4 Hne].
  apply unit_normalization_length in E3.
  rewrite smoothing_loop_length in E3.
  apply spike_loop_length in E1.
  split; [congruence|].
  intros ->. apply Hne. destruct s3; [reflexivity|].
  simpl in *. destruct s1; simpl in *; discriminate.
Qed.

Lemma pipeline_empty (c : Config F) :
  spike_normalization [] c = Ok []
  /\ smoothing [] c = Ok []
  /\ unit_normalization [] c = Ok []
  /\ logarithmic_scaling [] c = Raise ValueError
  /\ pipeline [] c = Raise ValueError.
Proof. repeat split. Qed.

(** What the program can build: a constructed library, then any number
    of [add_series] calls (failed ones included: they leave the flag
    written) and of [combine] calls with libraries built the same way. *)
Inductive reachable : Library F -> Prop :=
| reach_init (kwargs : Kwargs F) (lib : Library F) :
    Library_init kwargs = Ok lib -> reachable lib
| reach_add_series (self : Library F) (series : list F) (b : bool) :
    reachable self -> reachable (snd (add_series series b self))
| reach_combine (self lib : Library F) :
    reachable self -> reachable lib -> reachable (snd (combine lib self)).

Definition no_empty_series (lib : Library F) : Prop :=
  Forall (fun s => s <> []) (trends lib)
  /\ Forall (fun s => s <> []) (non_trends lib).

Lemma add_series_unfold (series : list F) (b : bool) (self : Library F) :
  transformations self = set_up_transformations ->
  add_series series b self
  = let self' := set_config (set_is_trend b (config self)) self in
    match pipeline series (config self') with
    | Ok out =>
        (Ok tt, if b then set_trends (trends self' ++ [out]) self'
                else set_non_trends (non_trends self' ++ [out]) self')
    | Raise e => (Raise e, self')
    end.
Proof.
  intros Ht. unfold add_series, seq_m, write, transform_input. simpl.
  rewrite Ht, run_transformations_pipeline.
  destruct (pipeline series _); [destruct b|]; reflexivity.
Qed.

Lemma combine_unfold (self lib : Library F) :
  transformations (snd (combine lib self)) = transformations self
  /\ (trends (snd (combine lib self)) = trends self
      \/ trends (snd (combine lib self)) = trends lib)
  /\ (non_trends (snd (combine lib self)) = non_trends self
      \/ non_trends (snd (combine lib self)) = non_trends lib).
Proof.
  unfold combine, seq_m, read, write, assert, ret, raise.
  destruct (trends lib) eqn:Tl, (trends self) eqn:Ts,
    (non_trends lib) eqn:Nl, (non_trends self) eqn:Ns;
    repeat (progress (simpl; rewrite ?Tl, ?Ts, ?Nl, ?Ns)); auto.
Qed.

Lemma reachable_invariant (lib : Library F) :
  reachable lib ->
  transformations lib = set_up_transformations /\ no_empty_series lib.
Proof.
  induction 1 as [kwargs lib Hinit | self series b Hr [IHt [IH1 IH2]]
                 | self lib Hs [IHst [IHs1 IHs2]] Hl [IHlt [IHl1 IHl2]]].
  - unfold Library_init in Hinit.
    destruct (kw_config kwargs); simpl in Hinit; [|discriminate].
    injection Hinit as <-. repeat split; constructor.
  - rewrite (add_series_unfold series b self IHt). cbv zeta.
    destruct (pipeline series _) as [out|e] eqn:E.
    + apply pipeline_length in E. destruct E as [Elen Ene].
      assert (out <> []) by (destruct out, series; simpl in *; congruence).
      destruct b; simpl; repeat split; try assumption;
        apply Forall_app; split; try assumption; constructor; auto.
    + simpl. repeat split; assumption.
  - destruct (combine_unfold self lib) as [Et [[E1|E1] [E2|E2]]];
      unfold no_empty_series; rewrite Et, E1, E2; repeat split; assumption.
Qed.

End StageFacts.

(** C10. Adding the empty series fails: the first three stages pass the
    empty list on, [logarithmic_scaling] raises [ValueError] at
    [min(series)], and [add_series] ends there with both collections as
    they were (only the [is_trend] flag has been written); no library the
    program builds holds an empty series. *)
Theorem add_series_empty_fails (F : Type) (num : Number F) (math : Math F)
  (self : Library F) (b : bool) :
  transformations self = set_up_transformations ->
  add_series [] b self
  = (Raise ValueError, set_config (set_is_trend b (config self)) self)
  /\ (forall c : Config F,
        spike_normalization [] c = Ok []
        /\ smoothing [] c = Ok []
        /\ unit_normalization [] c = Ok []
        /\ logarithmic_scaling [] c = Raise ValueError)
  /\ trends (snd (add_series [] b self)) = trends self
  /\ non_trends (snd (add_series [] b self)) = non_trends self
  /\ (forall lib : Library F, reachable lib -> no_empty_series lib).
Proof.
  intros Ht.
  assert (E : add_series [] b self
              = (Raise ValueError,
                 set_config (set_is_trend b (config self)) self)).
  { rewrite (add_series_unfold [] b self Ht). reflexivity. }
  rewrite E. split; [reflexivity|]. split.
  { intros c. repeat split. }
  split; [reflexivity|]. split; [reflexivity|].
  intros lib Hr. apply (reachable_invariant Hr).
Qed.

Lemma add_series_empty_fails_witness :
  fst (add_series [] true (sample_lib [] [])) = Raise ValueError
  /\ trends (snd (add_series [] true (sample_lib [] []))) = [].
Proof.
  pose proof (add_series_empty_fails (num := R_Number) (math := R_Math)
                (sample_lib [] []) true eq_refl) as [E [_ [Et _]]].
  split.
  - rewrite E. reflexivity.
  - exact Et.
Defined.

(** ** Real arithmetic: deciding the tests of a concrete run *)

Lemma Reqb_neq (x y : R) : x <> y -> Reqb x y = false.
Proof. intros H. unfold Reqb. destruct (Req_dec_T x y); [contradiction|reflexivity]. Qed.

Lemma Rltb_ge (x y : R) : (y <= x)%R -> Rltb x y = false.
Proof. intros H. unfold Rltb. destruct (Rlt_dec x y); [lra|reflexivity]. Qed.

Lemma double_overflow_large : (1 < double_overflow)%R.
Proof. unfold double_overflow. apply IZR_lt. reflexivity. Qed.

Lemma Rpower_abs (x y : R) : Rabs (Rpower x y) = Rpower x y.
Proof. apply Rabs_right. left. unfold Rpower. apply exp_pos. Qed.

Lemma R_pow_pos (x y : R) :
  (0 < x)%R -> (Rpower x y < double_overflow)%R -> R_pow x y = Ok (Rpower x y).
Proof.
  intros H Hfit. unfold R_pow, in_double_range. rewrite Rpower_abs.
  destruct (Rlt_dec 0 x); [|contradiction].
  destruct (Rlt_dec (Rpower x y) double_overflow); [reflexivity|contradiction].
Qed.

Lemma R_pow_overflow (x y : R) :
  (0 < x)%R -> (double_overflow <= Rpower x y)%R ->
  R_pow x y = Raise OverflowError.
Proof.
  intros H Hbig. unfold R_pow, in_double_range. rewrite Rpower_abs.
  destruct (Rlt_dec 0 x); [|contradiction].
  destruct (Rlt_dec (Rpower x y) double_overflow); [lra|reflexivity].
Qed.

Lemma R_pow_zero (y : R) : (0 < y)%R -> R_pow 0 y = Ok 0%R.
Proof.
  intros H. unfold R_pow.
  destruct (Rlt_dec 0 0); [lra|].
  destruct (Req_dec_T 0 0); [|lra].
  destruct (Rlt_dec 0 y); [reflexivity|contradiction].
Qed.

Lemma R_log10_pos (x : R) : (0 < x)%R -> R_log10 x = Ok (ln x / ln 10)%R.
Proof. intros H. unfold R_log10. destruct (Rlt_dec 0 x); [reflexivity|contradiction]. Qed.

(** Unfolds a run of the stages on a concrete series of reals, down to
    the tests and the calls of [math]. *)
Ltac Rrun :=
  cbn [spike_normalization spike_loop smoothing smoothing_loop
       unit_normalization logarithmic_scaling py_min for_each
       fold_left bind app tl];
  unfold truediv;
  cbn [of_int add sub div absf eqb ltb math_pow math_log10
       R_Number R_Math].

Lemma Rabs_one_step (x y : R) : (x - y = 1 \/ y - x = 1)%R -> Rabs (x - y) = 1%R.
Proof.
  intros [H|H]; unfold Rabs; destruct (Rcase_abs (x - y)); lra.
Qed.

(** ** C3: the pipeline and its worked example *)

(** The library of the example: default configuration but [alpha = 1]. *)
Definition scenario_kwargs : Kwargs R := {|
  kw_config := Some {| o_reference_length := None;
                       o_n_smooth := None;
                       o_alpha := Some 1%R;
                       o_is_trend := None |}
|}.

Definition scenario_lib : Library R := {|
  trends := [];
  non_trends := [];
  config := {| reference_length := 210;
               n_smooth := 80;
               alpha := 1%R;
               is_trend := None |};
  transformations := set_up_transformations
|}.

Definition log10 (x : R) : R := (ln x / ln 10)%R.

Lemma scenario_spike (c : Config R) :
  alpha c = 1%R ->
  spike_normalization [1; 2; 3; 2; 1]%R c = Ok [1; 1; 1; 1; 1]%R.
Proof.
  intros Ha. unfold spike_normalization. rewrite Ha. Rrun.
  rewrite !Reqb_neq by lra. rewrite !Rabs_one_step by lra.
  rewrite !R_pow_pos
    by (try rewrite Rpower_1 by lra; pose proof double_overflow_large; lra).
  rewrite !Rpower_1 by lra. reflexivity.
Qed.

Lemma scenario_smoothing (c : Config R) :
  n_smooth c = 80%Z ->
  smoothing [1; 1; 1; 1; 1]%R c = Ok [1; 2; 3; 4; 5]%R.
Proof.
  intros Hn. unfold smoothing. rewrite Hn. simpl.
  repeat f_equal; unfold sum; simpl; lra.
Qed.

Lemma scenario_unit (c : Config R) :
  unit_normalization [1; 2; 3; 4; 5]%R c
  = Ok [1 / 5; 2 / 5; 3 / 5; 4 / 5; 5 / 5]%R.
Proof.
  unfold unit_normalization.
  change (len [1; 2; 3; 4; 5]%R) with 5%Z.
  Rrun. rewrite !Reqb_neq by lra. reflexivity.
Qed.

Lemma scenario_log (c : Config R) :
  logarithmic_scaling [1 / 5; 2 / 5; 3 / 5; 4 / 5; 5 / 5]%R c
  = Ok [log10 1.2; log10 1.4; log10 1.6; log10 1.8; log10 2.0].
Proof.
  Rrun. rewrite !R_log10_pos by lra. unfold log10.
  replace (1 / 5 + 1)%R with 1.2%R by lra.
  replace (2 / 5 + 1)%R with 1.4%R by lra.
  replace (3 / 5 + 1)%R with 1.6%R by lra.
  replace (4 / 5 + 1)%R with 1.8%R by lra.
  replace (5 / 5 + 1)%R with 2.0%R by lra.
  reflexivity.
Qed.

(** C3. The constructor installs exactly the four stages spike
    normalization, smoothing, unit normalization, logarithmic scaling, in
    that order; [transform_input] runs the installed list from left to
    right, each stage on the output of the one before; and on the raw
    series [1,2,3,2,1] with [alpha = 1] and [n_smooth = 80] the stages
    give [1,1,1,1,1], [1,2,3,4,5], [0.2,...,1.0] and finally
    [log10 1.2, log10 1.4, log10 1.6, log10 1.8, log10 2.0]. *)
Theorem pipeline_stages_in_order (F : Type) (num : Number F) (math : Math F) :
  (forall d : Overrides F,
     Library_init {| kw_config := Some d |}
     = Ok {| trends := [];
             non_trends := [];
             config := update default_config d;
             transformations :=
               [spike_normalization; smoothing; unit_normalization;
                logarithmic_scaling] |})
  /\ (forall (self : Library F) (series : list F),
        transform_input series self
        = (run_transformations (transformations self) (config self) series,
           self))
  /\ (forall (series : list F) (c : Config F),
        run_transformations
          [spike_normalization; smoothing; unit_normalization;
           logarithmic_scaling] c series
        = (do s1 <- spike_normalization series c;
           do s2 <- smoothing s1 c;
           do s3 <- unit_normalization s2 c;
           logarithmic_scaling s3 c))
  /\ Library_init scenario_kwargs = Ok scenario_lib
  /\ spike_normalization [1; 2; 3; 2; 1]%R (config scenario_lib)
     = Ok [1; 1; 1; 1; 1]%R
  /\ smoothing [1; 1; 1; 1; 1]%R (config scenario_lib)
     = Ok [1; 2; 3; 4; 5]%R
  /\ unit_normalization [1; 2; 3; 4; 5]%R (config scenario_lib)
     = Ok [1 / 5; 2 / 5; 3 / 5; 4 / 5; 5 / 5]%R
  /\ transform_input [1; 2; 3; 2; 1]%R scenario_lib
     = (Ok [log10 1.2; log10 1.4; log10 1.6; log10 1.8; log10 2.0],
        scenario_lib).
Proof.
  split; [reflexivity|].
  split; [reflexivity|].
  split; [exact run_transformations_pipeline|].
  split; [reflexivity|].
  pose proof (scenario_spike (config scenario_lib) eq_refl) as H1.
  pose proof (scenario_smoothing (config scenario_lib) eq_refl) as H2.
  pose proof (scenario_unit (config scenario_lib)) as H3.
  pose proof (scenario_log (config scenario_lib)) as H4.
  repeat split; try assumption.
  unfold transform_input.
  change (transformations scenario_lib) with (@set_up_transformations R _ _).
  rewrite run_transformations_pipeline. unfold pipeline.
  rewrite H1. cbn [bind]. rewrite H2. cbn [bind]. rewrite H3. cbn [bind].
  rewrite H4. reflexivity.
Qed.

(** ** C4: spike normalization on real series *)

(** [x ^ a] for a base [x >= 0] and an exponent [a > 0]. *)
Definition power (x a : R) : R :=
  if Req_dec_T x 0 then 0%R else Rpower x a.

(** The point the specification prescribes at a position whose raw point
    is [pt] and whose previous raw point is [prev]. *)
Definition spike_point (a prev pt : R) : R :=
  if Req_dec_T pt 0 then 0%R else power (Rabs (pt - prev)) a.

Fixpoint spike_points (a prev : R) (series : list R) : list R :=
  match series with
  | [] => []
  | pt :: rest => spike_point a prev pt :: spike_points a pt rest
  end.





(** A value a double can hold without overflow. *)
Definition fits (y : R) : Prop := (y < double_overflow)%R.

Lemma fits_zero : fits 0.
Proof. unfold fits. pose proof double_overflow_large. lra. Qed.

Lemma R_pow_abs (x a : R) :
  (0 < a)%R -> fits (power (Rabs x) a) ->
  R_pow (Rabs x) a = Ok (power (Rabs x) a).
Proof.
  intros Ha. unfold power, fits. destruct (Req_dec_T (Rabs x) 0) as [E|N].
  - intros _. rewrite E. apply R_pow_zero. exact Ha.
  - intros Hfit. apply R_pow_pos; [|exact Hfit]. pose proof (Rabs_pos x). lra.
Qed.

Lemma R_pow_abs_overflow (x a : R) :
  ~ fits (power (Rabs x) a) -> R_pow (Rabs x) a = Raise OverflowError.
Proof.
  unfold power, fits. destruct (Req_dec_T (Rabs x) 0) as [E|N].
  - intros H. exfalso. apply H. apply fits_zero.
  - intros H. apply R_pow_overflow; [pose proof (Rabs_pos x); lra | lra].
Qed.

Lemma spike_loop_points (a : R) :
  (0 < a)%R ->
  forall (series : list R) (prev : R),
    Forall fits (spike_points a prev series) ->
    spike_loop a prev series = Ok (spike_points a prev series).
Proof.
  intros Ha. induction series as [|pt rest IH]; intros prev Hfit; simpl.
  - reflexivity.
  - simpl in Hfit. inversion Hfit as [|y ys Hy Hys]; subst.
    rewrite (IH _ Hys). unfold spike_point, Reqb in *.
    destruct (Req_dec_T pt 0); simpl.
    + reflexivity.
    + rewrite (@R_pow_abs (pt - prev) a Ha Hy). reflexivity.
Qed.

Lemma spike_loop_overflow (a : R) :
  (0 < a)%R ->
  forall (series : list R) (prev : R),
    ~ Forall fits (spike_points a prev series) ->
    spike_loop a prev series = Raise OverflowError.
Proof.
  intros Ha. induction series as [|pt rest IH]; intros prev Hover; simpl.
  - exfalso. apply Hover. constructor.
  - simpl in Hover. unfold spike_point, Reqb in *.
    destruct (Req_dec_T pt 0) as [Hz|Hnz]; simpl.
    + rewrite IH; [reflexivity|].
      intros Hrest. apply Hover. constructor; [apply fits_zero | exact Hrest].
    + destruct (Rlt_dec (power (Rabs (pt - prev)) a) double_overflow)
        as [Hfit|Hbig].
      * rewrite (@R_pow_abs (pt - prev) a Ha Hfit). simpl.
        rewrite IH; [reflexivity|].
        intros Hrest. apply Hover. constructor; assumption.
      * rewrite (@R_pow_abs_overflow (pt - prev) a Hbig). reflexivity.
Qed.










(** ** C5: unit normalization *)

Section UnitFacts.

Context {F : Type} {num : Number F}.

Lemma for_each_nth {A B : Type} (f : A -> result B) (xs : list A) (ys : list B)
  (da : A) (db : B) :
  for_each f xs = Ok ys ->
  forall i : nat, (i < length xs)%nat -> f (nth i xs da) = Ok (nth i ys db).
Proof.
  revert ys. induction xs as [|x xs IH]; simpl; intros ys H i Hi; [lia|].
  destruct (f x) as [y|e] eqn:Ex; simpl in H; [|discriminate].
  destruct (for_each f xs) as [ys'|e]; simpl in H; [|discriminate].
  injection H as <-. destruct i as [|i]; simpl.
  - exact Ex.
  - apply IH; [reflexivity | lia].
Qed.

(** In any arithmetic: when unit normalization returns, the output has
    the length of the input and each point is the input point divided by
    the length of the whole series. *)
Lemma unit_normalization_pointwise (series out : list F) (c : Config F) (d : F) :
  unit_normalization series c = Ok out ->
  length out = length series
  /\ forall i : nat, (i < length series)%nat ->
       nth i out d = div (nth i series d) (of_int (len series)).
Proof.
  intros H. split; [exact (unit_normalization_length _ _ H)|].
  intros i Hi. unfold unit_normalization in H.
  pose proof (for_each_nth _ _ d d H Hi) as E. unfold truediv in E.
  destruct (eqb (of_int (len series)) (of_int 0)); [discriminate|].
  injection E as E. symmetry. exact E.
Qed.

End UnitFacts.

Lemma for_each_truediv_R (n : Z) (series : list R) :
  n <> 0%Z ->
  for_each (fun pt : R => truediv pt n) series
  = Ok (map (fun pt => (pt / IZR n)%R) series).
Proof.
  intros Hn. induction series as [|pt rest IH]; simpl; [reflexivity|].
  rewrite IH. unfold truediv. cbn [eqb of_int div R_Number].
  rewrite Reqb_neq by (intros E; apply eq_IZR in E; contradiction).
  reflexivity.
Qed.

Lemma fold_left_Rplus_scaled (n : R) (series : list R) :
  forall acc : R,
    fold_left Rplus (map (fun pt => (pt / n)%R) series) (acc / n)%R
    = (fold_left Rplus series acc / n)%R.
Proof.
  induction series as [|pt rest IH]; intros acc; simpl; [reflexivity|].
  rewrite <- IH. f_equal. unfold Rdiv. ring.
Qed.

(** On a non-empty series of reals unit normalization returns every
    point divided by the length of the series, keeps the length, and the
    sum of its output is the sum of the input divided by the length,
    exactly. *)
Lemma unit_normalization_real (series : list R) (c : Config R) :
  series <> [] ->
  unit_normalization series c
  = Ok (map (fun pt => (pt / IZR (len series))%R) series)
  /\ length (map (fun pt => (pt / IZR (len series))%R) series)
     = length series
  /\ (forall i : nat, (i < length series)%nat ->
        nth i (map (fun pt => (pt / IZR (len series))%R) series) 0%R
        = (nth i series 0 / IZR (len series))%R)
  /\ sum (map (fun pt => (pt / IZR (len series))%R) series)
     = (sum series / IZR (len series))%R.
Proof.
  intros Hne.
  assert (Hlen : len series <> 0%Z).
  { unfold len. destruct series; [contradiction | simpl; lia]. }
  assert (E : unit_normalization series c
              = Ok (map (fun pt => (pt / IZR (len series))%R) series)).
  { unfold unit_normalization. apply for_each_truediv_R. exact Hlen. }
  split; [exact E|]. split; [apply length_map|]. split.
  - intros i Hi.
    destruct (unit_normalization_pointwise series c 0%R E) as [_ Hp].
    exact (Hp i Hi).
  - unfold sum. cbn [add of_int R_Number].
    rewrite <- fold_left_Rplus_scaled. f_equal. unfold Rdiv. ring.
Qed.

Lemma for_each_truediv {F : Type} {num : Number F} (n : Z) (series : list F) :
  eqb (of_int n) (of_int 0) = false ->
  for_each (fun pt : F => truediv pt n) series
  = Ok (map (fun pt => div pt (of_int n)) series).
Proof.
  intros Hn. induction series as [|pt rest IH]; simpl; [reflexivity|].
  rewrite IH. unfold truediv. rewrite Hn. reflexivity.
Qed.

(** C5, as it holds. In any arithmetic, binary64 included, in which the
    length of the series converts to a non-zero number, unit
    normalization of a non-empty series returns the quotients of its
    points by that length, as that arithmetic computes them, and keeps
    the length.  In the arithmetic of the reals the sum of the output is
    the sum of the input divided by the length, exactly. *)
Theorem unit_normalization_divides (F : Type) (num : Number F)
  (series : list F) (c : Config F) (reals : list R) (rc : Config R) :
  series <> [] ->
  eqb (of_int (len series)) (of_int 0) = false ->
  reals <> [] ->
  unit_normalization series c
  = Ok (map (fun pt => div pt (of_int (len series))) series)
  /\ length (map (fun pt => div pt (of_int (len series))) series)
     = length series
  /\ (forall (i : nat) (d : F), (i < length series)%nat ->
        nth i (map (fun pt => div pt (of_int (len series))) series) d
        = div (nth i series d) (of_int (len series)))
  /\ unit_normalization reals rc
     = Ok (map (fun pt => (pt / IZR (len reals))%R) reals)
  /\ sum (map (fun pt => (pt / IZR (len reals))%R) reals)
     = (sum reals / IZR (len reals))%R.
Proof.
  intros Hne Hlen Hreals.
  assert (E : unit_normalization series c
              = Ok (map (fun pt => div pt (of_int (len series))) series))
    by (apply for_each_truediv; exact Hlen).
  split; [exact E|]. split; [apply length_map|]. split.
  - intros i d Hi.
    destruct (unit_normalization_pointwise series c d E) as [_ Hp].
    exact (Hp i Hi).
  - destruct (unit_normalization_real rc Hreals) as [Er [_ [_ Hsum]]].
    split; assumption.
Qed.

Lemma unit_normalization_divides_witness :
  unit_normalization [1; 1; 3]%float default_config
  = Ok [1 / 3; 1 / 3; 3 / 3]%float
  /\ sum (map (fun pt => (pt / 3)%R) [1; 1; 3]%R) = (sum [1; 1; 3]%R / 3)%R.
Proof.
  pose proof (@unit_normalization_divides float float_Number
                [1; 1; 3]%float default_config
                [1; 1; 3]%R (config scenario_lib)) as H.
  destruct H as [E [_ [_ [_ Hsum]]]]; try discriminate; try reflexivity.
  split; [exact E | exact Hsum].
Defined.

(** C5, as stated, fails in the arithmetic the program runs in: on the
    binary64 series [1.0, 1.0, 3.0] the output is [1/3, 1/3, 1.0], whose
    sum is 1.6666666666666665, whereas sum(input)/len(input) is
    1.6666666666666667. *)
Lemma unit_normalization_sum_inexact :
  unit_normalization [1; 1; 3]%float default_config
  = Ok [1 / 3; 1 / 3; 3 / 3]%float
  /\ sum [1 / 3; 1 / 3; 3 / 3]%float = 0x1.aaaaaaaaaaaaap+0%float
  /\ div (sum [1; 1; 3]%float) (of_int (len [1; 1; 3]%float))
     = 0x1.aaaaaaaaaaaabp+0%float
  /\ PrimFloat.eqb
       (sum [1 / 3; 1 / 3; 3 / 3]%float)
       (div (sum [1; 1; 3]%float) (of_int (len [1; 1; 3]%float)))
     = false.
Proof. vm_compute. repeat split. Qed.

(** ** C6, C7: reference sizing *)

Section SizingFacts.

Context {F : Type} {num : Number F}.

Lemma scan_max_snoc (pre : list F) (pt : F) :
  scan_max (pre ++ [pt]) = scan_step (scan_max pre) pt.
Proof. unfold scan_max. rewrite fold_left_app. reflexivity. Qed.

(** In any arithmetic the scan counts the points, and an index it
    records is the position of a point of the series. *)
Lemma scan_max_index (series : list F) :
  snd (scan_max series) = len series
  /\ forall i : Z, fst (fst (scan_max series)) = Some i ->
       (0 <= i < len series)%Z.
Proof.
  induction series as [|pt pre [IHn IHi]] using rev_ind.
  - split; [reflexivity | discriminate].
  - rewrite scan_max_snoc.
    destruct (scan_max pre) as [[max_idx max_pt] idx]. simpl in IHn, IHi.
    assert (Hlen : len (pre ++ [pt]) = (len pre + 1)%Z).
    { unfold len. rewrite length_app. simpl. lia. }
    unfold scan_step. rewrite Hlen.
    destruct (ltb max_pt pt); simpl; (split; [lia|]); intros i Hi.
    + injection Hi as <-. pose proof (len_nonneg pre). lia.
    + specialize (IHi i Hi). lia.
Qed.

Lemma slice_len_le {A : Type} (xs : list A) (lo hi : Z) :
  (len (slice xs lo hi)
   <= Z.max 0 (slice_bound (len xs) hi - slice_bound (len xs) lo))%Z.
Proof.
  unfold slice. cbv zeta. unfold len at 1.
  pose proof (firstn_le_length
                (Z.to_nat (slice_bound (len xs) hi - slice_bound (len xs) lo))
                (skipn (Z.to_nat (slice_bound (len xs) lo)) xs)).
  lia.
Qed.

Lemma sizing_trend (draw : Z) (series : list F) (c : Config F) :
  is_trend c = Some true ->
  sizing draw series c
  = match fst (fst (scan_max series)) with
    | Some max_idx => Ok (slice series (max_idx - reference_length c) max_idx)
    | None => Raise TypeError
    end.
Proof. intros H. unfold sizing. rewrite H. reflexivity. Qed.

End SizingFacts.

(** C6, as it holds. With [reference_length] greater than the length of
    the series, sizing under the non-trend label raises [ValueError] (the
    range of the random offset is empty).  Under the trend label the
    length is not checked: sizing raises [TypeError] when the scan finds
    no maximum, and otherwise returns the slice
    [series[max_idx - R : max_idx]], which then has fewer than R
    points. *)
Theorem sizing_short_series (F : Type) (num : Number F) (draw : Z)
  (series : list F) (c : Config F) :
  (len series < reference_length c)%Z ->
  (is_trend c = Some false -> sizing draw series c = Raise ValueError)
  /\ (is_trend c = Some true ->
        match fst (fst (scan_max series)) with
        | None => sizing draw series c = Raise TypeError
        | Some max_idx =>
            sizing draw series c
            = Ok (slice series (max_idx - reference_length c) max_idx)
            /\ (len (slice series (max_idx - reference_length c) max_idx)
                <= max_idx)%Z
            /\ (max_idx < len series)%Z
        end).
Proof.
  intros Hshort. split; intros Hlabel.
  - unfold sizing, randint. rewrite Hlabel. cbn [bind].
    destruct (Z.ltb_spec (len series - reference_length c) 0); [reflexivity|lia].
  - rewrite (sizing_trend draw series c Hlabel).
    destruct (scan_max_index series) as [_ Hi].
    destruct (fst (fst (scan_max series))) as [max_idx|]; [|reflexivity].
    specialize (Hi max_idx eq_refl).
    split; [reflexivity|]. split; [|lia].
    pose proof (slice_len_le series (max_idx - reference_length c) max_idx) as Hs.
    unfold slice_bound in Hs.
    destruct (Z.ltb_spec (max_idx - reference_length c) 0); [|lia].
    destruct (Z.ltb_spec max_idx 0); lia.
Qed.

(** The configuration of a sizing call: the length asked for and the
    label. *)
Definition sizing_config {F : Type} {num : Number F} (size_r : Z) (trend : bool)
  : Config F :=
  set_is_trend trend
    (update default_config
       {| o_reference_length := Some size_r;
          o_n_smooth := None;
          o_alpha := None;
          o_is_trend := None |}).

Lemma sizing_short_series_witness :
  sizing 0 [1; 2; 3]%float (sizing_config 5 false) = Raise ValueError.
Proof.
  refine (proj1 (@sizing_short_series float float_Number 0 [1; 2; 3]%float
                   (sizing_config 5 false) _)
            eq_refl).
  reflexivity.
Defined.

(** C6, as stated, fails under the trend label: asked for 5 points of the
    three-point series [1.0, 2.0, 3.0], sizing raises nothing and
    returns the two points before the maximum. *)
Lemma sizing_trend_silently_short :
  sizing 0 [1; 2; 3]%float (sizing_config 5 true) = Ok [1; 2]%float
  /\ (len [1; 2; 3]%float < reference_length (sizing_config (F := float) 5 true))%Z.
Proof. split; reflexivity. Qed.

(** Position [i] holds the maximum of [series], and no earlier position
    does. *)
Definition first_max (series : list R) (i : nat) : Prop :=
  (i < length series)%nat
  /\ (forall j : nat, (j < length series)%nat ->
        (nth j series 0 <= nth i series 0)%R)
  /\ (forall j : nat, (j < i)%nat -> (nth j series 0 < nth i series 0)%R).

(** What the scan has established once it has read [series]. *)
Definition scan_invariant (series : list R) (st : option Z * R * Z) : Prop :=
  let '(max_idx, max_pt, idx) := st in
  idx = len series
  /\ match max_idx with
     | None =>
         max_pt = (-5000)%R
         /\ forall j : nat, (j < length series)%nat ->
              (nth j series 0 <= -5000)%R
     | Some i =>
         (0 <= i)%Z
         /\ first_max series (Z.to_nat i)
         /\ max_pt = nth (Z.to_nat i) series 0%R
         /\ (-5000 < max_pt)%R
     end.

Lemma nth_snoc_old (pre : list R) (pt : R) (j : nat) :
  (j < length pre)%nat -> nth j (pre ++ [pt]) 0%R = nth j pre 0%R.
Proof. intros H. apply app_nth1. exact H. Qed.

Lemma nth_snoc_new (pre : list R) (pt : R) :
  nth (length pre) (pre ++ [pt]) 0%R = pt.
Proof. rewrite app_nth2 by lia. rewrite Nat.sub_diag. reflexivity. Qed.

Lemma snoc_positions (pre : list R) (pt : R) (j : nat) :
  (j < length (pre ++ [pt]))%nat -> (j < length pre)%nat \/ j = length pre.
Proof. rewrite length_app. simpl. lia. Qed.

Lemma scan_max_invariant (series : list R) :
  scan_invariant series (scan_max series).
Proof.
  induction series as [|pt pre IH] using rev_ind.
  - simpl. repeat split. intros j Hj. simpl in Hj. lia.
  - rewrite scan_max_snoc.
    destruct (scan_max pre) as [[max_idx max_pt] idx].
    destruct IH as [Hidx IH].
    assert (Hlen : len (pre ++ [pt]) = (len pre + 1)%Z).
    { unfold len. rewrite length_app. simpl. lia. }
    assert (Hpos : Z.to_nat idx = length pre) by (unfold len in Hidx; lia).
    unfold scan_step. cbn [ltb R_Number]. unfold Rltb.
    destruct (Rlt_dec max_pt pt) as [Hlt|Hge]; split; try lia.
    + (* a new maximum, at the position just read *)
      rewrite Hpos. rewrite nth_snoc_new.
      assert (Hold : forall j : nat, (j < length pre)%nat ->
                       (nth j pre 0 < pt)%R).
      { intros j Hj. destruct max_idx as [i|].
        - destruct IH as [_ [[_ [Hall _]] [Hm _]]].
          specialize (Hall j Hj). lra.
        - destruct IH as [Hm Hall]. specialize (Hall j Hj). lra. }
      split; [unfold len in Hidx; lia|]. split; [|split].
      * split; [rewrite length_app; simpl; lia|].
        rewrite nth_snoc_new. split.
        -- intros j Hj. destruct (snoc_positions pre pt Hj) as [Hj'| ->].
           ++ rewrite nth_snoc_old by exact Hj'. left. apply Hold. exact Hj'.
           ++ rewrite nth_snoc_new. right. reflexivity.
        -- intros j Hj. rewrite nth_snoc_old by exact Hj. apply Hold. exact Hj.
      * reflexivity.
      * destruct max_idx as [i|].
        -- destruct IH as [_ [_ [_ Hm]]]. lra.
        -- destruct IH as [Hm _]. lra.
    + (* the maximum so far stays *)
      destruct max_idx as [i|].
      * destruct IH as [Hi [[Hin [Hall Hfirst]] [Hm Hs]]].
        split; [exact Hi|]. unfold first_max.
        rewrite !(nth_snoc_old pre pt Hin).
        split; [|split; assumption].
        split; [rewrite length_app; simpl; lia|]. split.
        -- intros j Hj. destruct (snoc_positions pre pt Hj) as [Hj'| ->].
           ++ rewrite nth_snoc_old by exact Hj'. apply Hall. exact Hj'.
           ++ rewrite nth_snoc_new. lra.
        -- intros j Hj. rewrite nth_snoc_old by lia. apply Hfirst. exact Hj.
      * destruct IH as [Hm Hall]. split; [exact Hm|].
        intros j Hj. destruct (snoc_positions pre pt Hj) as [Hj'| ->].
        -- rewrite nth_snoc_old by exact Hj'. apply Hall. exact Hj'.
        -- rewrite nth_snoc_new. lra.
Qed.

(** C7, as it holds. For every real series labeled trend that has a value
    above -5000 (the value the scan for the maximum starts from), sizing
    finds the first position [i] of the maximum and returns
    [series[i - R : i]]; when [0 <= R <= i] that is the window of the R
    points immediately before the maximum. *)
Theorem sizing_trend_window (draw : Z) (series : list R) (c : Config R) :
  is_trend c = Some true ->
  (exists x : R, In x series /\ (-5000 < x)%R) ->
  exists i : nat,
    first_max series i
    /\ sizing draw series c
       = Ok (slice series (Z.of_nat i - reference_length c) (Z.of_nat i))
    /\ ((0 <= reference_length c <= Z.of_nat i)%Z ->
          slice series (Z.of_nat i - reference_length c) (Z.of_nat i)
          = firstn (Z.to_nat (reference_length c))
              (skipn (i - Z.to_nat (reference_length c)) series)
          /\ len (slice series (Z.of_nat i - reference_length c) (Z.of_nat i))
             = reference_length c).
Proof.
  intros Hlabel [x [Hin Hx]].
  rewrite (sizing_trend draw series c Hlabel).
  pose proof (scan_max_invariant series) as Hinv.
  destruct (scan_max series) as [[max_idx max_pt] idx].
  destruct Hinv as [_ Hinv]. cbn [fst].
  destruct max_idx as [i|].
  - destruct Hinv as [Hi [Hfirst _]].
    exists (Z.to_nat i). rewrite Z2Nat.id by exact Hi.
    split; [exact Hfirst|]. split; [reflexivity|].
    intros HR. destruct Hfirst as [Hlt _].
    assert (Hlen : (i <= len series)%Z) by (unfold len; lia).
    split.
    + rewrite slice_inside by lia.
      replace (i - (i - reference_length c))%Z with (reference_length c) by lia.
      replace (Z.to_nat (i - reference_length c))
        with (Z.to_nat i - Z.to_nat (reference_length c))%nat by lia.
      reflexivity.
    + rewrite slice_inside_len by lia. lia.
  - destruct Hinv as [_ Hall]. exfalso.
    destruct (In_nth series x 0%R Hin) as [j [Hj Hnth]].
    specialize (Hall j Hj). lra.
Qed.

Lemma sizing_trend_window_witness :
  exists i : nat,
    first_max [1; 3; 2; 3]%R i
    /\ sizing 0 [1; 3; 2; 3]%R (sizing_config 1 true)
       = Ok (slice [1; 3; 2; 3]%R (Z.of_nat i - 1) (Z.of_nat i))
    /\ ((0 <= 1 <= Z.of_nat i)%Z ->
          slice [1; 3; 2; 3]%R (Z.of_nat i - 1) (Z.of_nat i)
          = firstn 1 (skipn (i - 1) [1; 3; 2; 3]%R)
          /\ len (slice [1; 3; 2; 3]%R (Z.of_nat i - 1) (Z.of_nat i)) = 1%Z).
Proof.
  refine (@sizing_trend_window 0 [1; 3; 2; 3]%R (sizing_config 1 true)
            eq_refl (ex_intro _ 1%R (conj (or_introl eq_refl) _))).
  lra.
Defined.

(** C7, as stated, fails on a series that stays at or below -5000: in
    [-7000, -6000] the maximum is at position 1 >= R = 1, yet sizing
    finds no maximum and raises [TypeError] instead of returning
    [series[0:1]]. *)
Lemma sizing_trend_below_start :
  first_max [-7000; -6000]%R 1
  /\ (Z.of_nat 1 >= reference_length (sizing_config (F := R) 1 true))%Z
  /\ sizing 0 [-7000; -6000]%R (sizing_config 1 true) = Raise TypeError.
Proof.
  split; [|split].
  - repeat split.
    + simpl. lia.
    + intros j Hj. simpl in Hj.
      destruct j as [|[|j]]; simpl; try lra. lia.
    + intros j Hj. destruct j as [|j]; simpl; [lra|lia].
  - simpl. lia.
  - unfold sizing, scan_max. cbn [is_trend sizing_config set_is_trend bind].
    repeat (cbn [fold_left scan_step ltb of_int R_Number];
            rewrite Rltb_ge by lra).
    reflexivity.
Qed.

(** ** C8: loading from an empty store *)

(** C8, on the code. Reading an empty file makes [pickle.load] raise
    [EOFError]; the handler then calls the constructor without arguments,
    and the constructor's lookup of its [config] keyword raises
    [KeyError], which is what the caller of [load_library] receives: no
    fresh empty library is returned. *)
Theorem load_library_empty_store (F : Type) (num : Number F) (math : Math F)
  (decode : list Byte.byte -> result (Library F)) (fs : files)
  (file_name : string) :
  fs file_name = Some [] ->
  (do f <- open fs file_name; pickle_load decode f) = Raise EOFError
  /\ Library_init (F := F) no_kwargs = Raise KeyError
  /\ load_library decode fs file_name = Raise KeyError.
Proof.
  intros Hempty. unfold load_library, open. rewrite Hempty. repeat split.
Qed.

Lemma load_library_empty_store_witness :
  load_library (F := R) (fun _ => Raise UnpicklingError)
    (fun _ => Some []) "library.pkl"
  = Raise KeyError.
Proof.
  exact (proj2 (proj2 (@load_library_empty_store R R_Number R_Math
                         (fun _ => Raise UnpicklingError)
                         (fun _ => Some []) "library.pkl"%string eq_refl))).
Defined.

(** * Further properties of the module *)

(** ** Windows: any length, overlap, the full window *)

Section MoreWindowFacts.

Context {A : Type}.

Lemma get_subseries_slices (self : TopicSeries A) (L : Z) :
  get_subseries self L
  = map (fun i => slice self (Z.of_nat i) (Z.of_nat i + L))
        (seq 0 (Z.to_nat (Z.max 0 (len self - L + 1)))).
Proof.
  unfold get_subseries.
  rewrite (get_subseries_from_offsets self L
             (n := Z.to_nat (Z.max 0 (len self - L + 1))) (index := 0%Z));
    [reflexivity | lia | lia].
Qed.

Lemma get_subseries_contiguous (self : TopicSeries A) (L : Z) :
  (0 <= L)%Z ->
  get_subseries self L
  = map (fun i => firstn (Z.to_nat L) (skipn i self))
        (seq 0 (Z.to_nat (Z.max 0 (len self - L + 1)))).
Proof.
  intros HL. rewrite get_subseries_slices. apply map_ext_in. intros i Hi.
  apply in_seq in Hi. rewrite slice_inside by lia.
  replace (Z.of_nat i + L - Z.of_nat i)%Z with L by lia.
  rewrite Nat2Z.id. reflexivity.
Qed.

Lemma slice_empty_window (self : list A) (i : nat) :
  slice self (Z.of_nat i) (Z.of_nat i + 0) = [].
Proof.
  unfold slice. cbv zeta. rewrite Z.add_0_r, Z.sub_diag. reflexivity.
Qed.

Lemma map_constant {B C : Type} (f : B -> C) (c : C) (xs : list B) :
  (forall x, In x xs -> f x = c) -> map f xs = repeat c (length xs).
Proof.
  induction xs as [|x xs IH]; simpl; intros H; [reflexivity|].
  rewrite (H x) by (left; reflexivity). f_equal. apply IH.
  intros y Hy. apply H. right. exact Hy.
Qed.

Lemma firstn_snoc (xs : list A) (n : nat) (d : A) :
  (n < length xs)%nat -> firstn (S n) xs = firstn n xs ++ [nth n xs d].
Proof.
  revert n. induction xs as [|x xs IH]; intros n Hn; simpl in Hn; [lia|].
  destruct n as [|n]; [reflexivity|].
  cbn [firstn nth app]. f_equal. apply IH. lia.
Qed.

Lemma nth_after_skipn (xs : list A) (m k : nat) (d : A) :
  nth k (skipn m xs) d = nth (m + k) xs d.
Proof.
  revert xs. induction m as [|m IH]; intros xs; [reflexivity|].
  destruct xs as [|x xs]; simpl; [destruct k; reflexivity | apply IH].
Qed.

Lemma skipn_tail (xs : list A) (m : nat) : skipn (S m) xs = tl (skipn m xs).
Proof.
  revert xs. induction m as [|m IH]; intros xs.
  - destruct xs; reflexivity.
  - destruct xs as [|x xs]; [reflexivity|]. apply (IH xs).
Qed.

End MoreWindowFacts.

(** X1. [get_subseries] accepts any integer as length: the window of rank
    i is always the Python slice [self[i:i+L]] and there are
    max(0, N-L+1) of them.  With L = 0 it yields N+1 empty windows, and
    with a negative length -k it yields N+k+1 windows. *)
Theorem get_subseries_any_length (A : Type) (self : TopicSeries A) (L : Z)
  (k : nat) :
  get_subseries self L
  = map (fun i => slice self (Z.of_nat i) (Z.of_nat i + L))
        (seq 0 (Z.to_nat (Z.max 0 (len self - L + 1))))
  /\ get_subseries self 0 = repeat [] (S (length self))
  /\ length (get_subseries self (- Z.of_nat k)) = (length self + k + 1)%nat.
Proof.
  split; [apply get_subseries_slices|]. split.
  - rewrite get_subseries_slices.
    rewrite (@map_constant _ _ _ (@nil A)).
    + rewrite length_seq. f_equal. unfold len. lia.
    + intros i _. apply slice_empty_window.
  - rewrite get_subseries_slices, length_map, length_seq. unfold len. lia.
Qed.

(** X2. Consecutive windows overlap: for L >= 1 each window after the
    first is the one before it without its first point, followed by the
    next point of the series. *)
Theorem get_subseries_shift (A : Type) (self : TopicSeries A) (L : Z)
  (i : nat) (d : A) :
  (1 <= L)%Z ->
  (S i < length (get_subseries self L))%nat ->
  nth (S i) (get_subseries self L) []
  = tl (nth i (get_subseries self L) []) ++ [nth (i + Z.to_nat L) self d].
Proof.
  intros HL Hi.
  rewrite get_subseries_contiguous in * by lia.
  rewrite length_map, length_seq in Hi.
  set (w := fun j : nat => firstn (Z.to_nat L) (skipn j self)).
  rewrite (nth_indep _ [] (w 0%nat)) by (rewrite length_map, length_seq; lia).
  rewrite (nth_indep _ [] (w 0%nat)) by (rewrite length_map, length_seq; lia).
  rewrite !(map_nth w), !seq_nth by lia. cbn [Nat.add]. unfold w.
  assert (Hn : (S i + Z.to_nat L <= length self)%nat) by (unfold len in Hi; lia).
  destruct (Z.to_nat L) as [|l] eqn:El; [lia|].
  rewrite (skipn_tail self i).
  destruct (skipn i self) as [|x rest] eqn:Es.
  { pose proof (length_skipn i self) as Hs. rewrite Es in Hs. simpl in Hs. lia. }
  cbn [tl]. change (firstn (S l) (x :: rest)) with (x :: firstn l rest).
  cbn [tl].
  assert (Hrest : (l < length rest)%nat).
  { pose proof (length_skipn i self) as Hs. rewrite Es in Hs. simpl in Hs. lia. }
  rewrite (firstn_snoc rest d Hrest). f_equal. f_equal.
  change rest with (tl (x :: rest)). rewrite <- Es, <- skipn_tail.
  rewrite nth_after_skipn. f_equal. lia.
Qed.

Lemma get_subseries_shift_witness :
  nth 1 (get_subseries [10; 20; 30; 40]%Z 3) []
  = tl (nth 0 (get_subseries [10; 20; 30; 40]%Z 3) []) ++ [40%Z].
Proof.
  refine (@get_subseries_shift Z [10; 20; 30; 40]%Z 3 0 0%Z _ _).
  - discriminate.
  - apply Nat.leb_le. reflexivity.
Defined.

(** X3. Asking for windows as long as the series yields the series itself
    and nothing else. *)
Theorem get_subseries_full_length (A : Type) (self : TopicSeries A) :
  get_subseries self (len self) = [self].
Proof.
  rewrite get_subseries_contiguous by apply len_nonneg.
  replace (Z.to_nat (Z.max 0 (len self - len self + 1))) with 1%nat by lia.
  unfold len. rewrite Nat2Z.id. simpl. rewrite firstn_all. reflexivity.
Qed.

(** ** Smoothing: what the queue holds *)

Section SmoothingFacts.

Context {F : Type} {num : Number F}.

(** The last [k] points of [xs]. *)
Definition lastn (k : nat) (xs : list F) : list F := skipn (length xs - k) xs.

Lemma lastn_length (k : nat) (xs : list F) :
  (k <= length xs)%nat -> length (lastn k xs) = k.
Proof. intros H. unfold lastn. rewrite length_skipn. lia. Qed.

Lemma tl_snoc (xs : list F) (x : F) : xs <> [] -> tl (xs ++ [x]) = tl xs ++ [x].
Proof. destruct xs; [contradiction | reflexivity]. Qed.

(** One turn of the loop on the queue: append, then drop the oldest
    point when the queue has outgrown the width. *)
Lemma queue_turn (n : nat) (pre : list F) (pt : F) :
  (1 <= n)%nat ->
  (if (Z.of_nat n <? len (lastn (Nat.min (length pre) n) pre ++ [pt]))%Z
   then tl (lastn (Nat.min (length pre) n) pre ++ [pt])
   else lastn (Nat.min (length pre) n) pre ++ [pt])
  = lastn (Nat.min (S (length pre)) n) (pre ++ [pt]).
Proof.
  intros Hn.
  assert (Hq : len (lastn (Nat.min (length pre) n) pre ++ [pt])
               = Z.of_nat (Nat.min (length pre) n + 1)).
  { unfold len. rewrite length_app, lastn_length by lia. reflexivity. }
  rewrite Hq. unfold lastn. rewrite length_app. cbn [length].
  rewrite skipn_app.
  destruct (Z.ltb_spec (Z.of_nat n) (Z.of_nat (Nat.min (length pre) n + 1)))
    as [Hfull|Hroom].
  - (* the queue was full: the oldest point leaves *)
    assert (Hge : (n <= length pre)%nat) by lia.
    rewrite Nat.min_r by lia. rewrite (Nat.min_r (S (length pre))) by lia.
    replace (length pre + 1 - n - length pre)%nat with 0%nat by lia.
    replace (length pre + 1 - n)%nat with (S (length pre - n)) by lia.
    rewrite skipn_tail. cbn [skipn]. apply tl_snoc.
    intros E. apply (f_equal (@length F)) in E.
    rewrite length_skipn in E. simpl in E. lia.
  - assert (Hlt : (length pre < n)%nat) by lia.
    rewrite Nat.min_l by lia. rewrite (Nat.min_l (S (length pre))) by lia.
    replace (length pre - length pre)%nat with 0%nat by lia.
    replace (length pre + 1 - S (length pre))%nat with 0%nat by lia.
    reflexivity.
Qed.

Lemma smoothing_loop_queue (n : nat) :
  (1 <= n)%nat ->
  forall (series pre : list F),
    smoothing_loop (Z.of_nat n) (lastn (Nat.min (length pre) n) pre) series
    = map (fun k => sum (lastn (Nat.min k n) (firstn k (pre ++ series))))
          (seq (S (length pre)) (length series)).
Proof.
  intros Hn. induction series as [|pt rest IH]; intros pre; [reflexivity|].
  cbn [smoothing_loop length seq map]. cbv zeta.
  rewrite (queue_turn pre pt Hn).
  assert (Hpre : firstn (S (length pre)) (pre ++ pt :: rest) = pre ++ [pt]).
  { replace (S (length pre)) with (length pre + 1)%nat by lia.
    rewrite firstn_app_2. reflexivity. }
  rewrite Hpre. f_equal.
  specialize (IH (pre ++ [pt])).
  rewrite length_app in IH. cbn [length] in IH.
  replace (length pre + 1)%nat with (S (length pre)) in IH by lia.
  rewrite IH. rewrite <- app_assoc. reflexivity.
Qed.

Lemma smoothing_loop_no_width (N : Z) (series : list F) :
  (N <= 0)%Z ->
  smoothing_loop N [] series = repeat (of_int 0) (length series).
Proof.
  intros HN. induction series as [|pt rest IH]; [reflexivity|].
  cbn [smoothing_loop app length repeat]. cbv zeta.
  replace (N <? len [pt])%Z with true
    by (symmetry; apply Z.ltb_lt; unfold len; simpl; lia).
  cbn [tl]. rewrite IH. reflexivity.
Qed.

End SmoothingFacts.

(** X4. With a width N >= 1, smoothing succeeds and its point at
    position i is [sum(series[max(0, i+1-N) : i+1])]: the sum, taken from
    the left, of the last N points read (of all of them while fewer than N
    have been read).  So with N at least the length of the series the
    output is the sequence of running totals. *)
Theorem smoothing_window_sums (F : Type) (num : Number F)
  (series : list F) (c : Config F) (d : F) :
  (1 <= n_smooth c)%Z ->
  smoothing series c = Ok (smoothing_loop (n_smooth c) [] series)
  /\ length (smoothing_loop (n_smooth c) [] series) = length series
  /\ (forall i : nat, (i < length series)%nat ->
        nth i (smoothing_loop (n_smooth c) [] series) d
        = sum (slice series (Z.max 0 (Z.of_nat i + 1 - n_smooth c))
                 (Z.of_nat i + 1)))
  /\ ((len series <= n_smooth c)%Z ->
        forall i : nat, (i < length series)%nat ->
          nth i (smoothing_loop (n_smooth c) [] series) d
          = sum (firstn (S i) series)).
Proof.
  intros HN.
  assert (Hpt : forall i : nat, (i < length series)%nat ->
            nth i (smoothing_loop (n_smooth c) [] series) d
            = sum (slice series (Z.max 0 (Z.of_nat i + 1 - n_smooth c))
                     (Z.of_nat i + 1))).
  { intros i Hi.
    pose proof (@smoothing_loop_queue F num (Z.to_nat (n_smooth c))
                  ltac:(lia) series []) as E.
    rewrite Z2Nat.id in E by lia. cbn [length Nat.min lastn skipn app] in E.
    change (lastn 0 []) with (@nil F) in E. rewrite E.
    set (w := fun k : nat =>
                sum (lastn (Nat.min k (Z.to_nat (n_smooth c))) (firstn k series))).
    rewrite (nth_indep _ d (w 0%nat)) by (rewrite length_map, length_seq; lia).
    rewrite (map_nth w), seq_nth by lia. unfold w. f_equal.
    unfold lastn. rewrite length_firstn, skipn_firstn_comm.
    rewrite slice_inside by (unfold len; lia).
    f_equal; [|f_equal]; lia. }
  split; [reflexivity|]. split; [apply smoothing_loop_length|].
  split; [exact Hpt|].
  intros Hwide i Hi. rewrite (Hpt i Hi).
  rewrite Z.max_l by (unfold len in Hwide; lia).
  rewrite slice_inside by (unfold len; lia).
  cbn [Z.to_nat skipn]. f_equal. f_equal. lia.
Qed.

Lemma smoothing_window_sums_witness :
  smoothing [1; 2; 4; 8]%float (sizing_config 5 true)
  = Ok (smoothing_loop 80 [] [1; 2; 4; 8]%float).
Proof.
  refine (proj1 (@smoothing_window_sums float float_Number [1; 2; 4; 8]%float
                   (sizing_config 5 true) 0%float _)).
  discriminate.
Defined.

(** X5. With a width N <= 0 the queue is emptied at every turn, so
    smoothing returns zeros: one per input point, whatever the input. *)
Theorem smoothing_no_width (F : Type) (num : Number F)
  (series : list F) (c : Config F) :
  (n_smooth c <= 0)%Z ->
  smoothing series c = Ok (repeat (of_int 0) (length series)).
Proof.
  intros HN. unfold smoothing. rewrite smoothing_loop_no_width by exact HN.
  reflexivity.
Qed.

Lemma smoothing_no_width_witness :
  smoothing [1; 2; 4]%float
    {| reference_length := 210; n_smooth := 0; alpha := 1%float;
       is_trend := None |}
  = Ok [0; 0; 0]%float.
Proof.
  refine (@smoothing_no_width float float_Number [1; 2; 4]%float _ _).
  discriminate.
Defined.

(** ** The stages on real series *)

Lemma for_each_Forall {A B : Type} (f : A -> result B)
  (P : A -> Prop) (Q : B -> Prop) :
  (forall x y, P x -> f x = Ok y -> Q y) ->
  forall (xs : list A) (ys : list B),
    Forall P xs -> for_each f xs = Ok ys -> Forall Q ys.
Proof.
  intros HPQ. induction xs as [|x xs IH]; simpl; intros ys HP H.
  - injection H as <-. constructor.
  - inversion HP as [|x' xs' Px Pxs]; subst.
    destruct (f x) as [y|e] eqn:Ex; simpl in H; [|discriminate].
    destruct (for_each f xs) as [ys'|e]; simpl in H; [|discriminate].
    injection H as <-. constructor; [exact (HPQ x y Px Ex) | apply IH; auto].
Qed.

Lemma for_each_total {A B : Type} (f : A -> result B) (g : A -> B)
  (P : A -> Prop) :
  (forall x, P x -> f x = Ok (g x)) ->
  forall xs : list A, Forall P xs -> for_each f xs = Ok (map g xs).
Proof.
  intros Hf. induction xs as [|x xs IH]; simpl; intros HP; [reflexivity|].
  inversion HP as [|x' xs' Px Pxs]; subst.
  rewrite (Hf x Px), (IH Pxs). reflexivity.
Qed.

(** When [for_each] fails, it fails with the exception of one of the
    calls. *)
Lemma for_each_raises {A B : Type} (f : A -> result B) (xs : list A) (e : exn) :
  for_each f xs = Raise e -> exists x, In x xs /\ f x = Raise e.
Proof.
  induction xs as [|x xs IH]; simpl; intros H; [discriminate|].
  destruct (f x) as [y|e'] eqn:Ex; simpl in H.
  - destruct (for_each f xs) as [ys|e'']; simpl in H; [discriminate|].
    injection H as ->. destruct (IH eq_refl) as [x' [Hin Hx']].
    exists x'. split; [right; exact Hin | exact Hx'].
  - injection H as ->. exists x. split; [left; reflexivity | exact Ex].
Qed.

Lemma for_each_fails {A B : Type} (f : A -> result B) (xs : list A) (x : A) :
  In x xs -> (exists e, f x = Raise e) -> exists e, for_each f xs = Raise e.
Proof.
  induction xs as [|x' xs IH]; simpl; intros Hin [e He]; [contradiction|].
  destruct Hin as [->|Hin].
  - rewrite He. exists e. reflexivity.
  - destruct (f x') as [y|e']; simpl; [|exists e'; reflexivity].
    destruct (IH Hin (ex_intro _ e He)) as [e'' E]. rewrite E.
    exists e''. reflexivity.
Qed.

Lemma ln_10_pos : (0 < ln 10)%R.
Proof. rewrite <- ln_1. apply ln_increasing; lra. Qed.

Lemma log10_nonneg (x : R) : (0 <= x)%R -> (0 <= log10 (x + 1))%R.
Proof.
  intros Hx. unfold log10. pose proof ln_10_pos as H10.
  assert (Hln : (0 <= ln (x + 1))%R).
  { destruct Hx as [Hpos| <-].
    - left. rewrite <- ln_1. apply ln_increasing; lra.
    - rewrite Rplus_0_l, ln_1. lra. }
  unfold Rdiv. apply Rmult_le_pos; [exact Hln|].
  left. apply Rinv_0_lt_compat. exact H10.
Qed.

Lemma R_pow_abs_nonneg (x a y : R) : R_pow (Rabs x) a = Ok y -> (0 <= y)%R.
Proof.
  unfold R_pow, in_double_range. pose proof (Rabs_pos x) as Hx.
  destruct (Rlt_dec 0 (Rabs x)).
  - destruct (Rlt_dec _ double_overflow); [|discriminate].
    intros H. injection H as <-. unfold Rpower. left. apply exp_pos.
  - destruct (Req_dec_T (Rabs x) 0); [|lra].
    destruct (Rlt_dec 0 a); [intros H; injection H as <-; lra|].
    destruct (Req_dec_T a 0); [intros H; injection H as <-; lra|].
    discriminate.
Qed.

Lemma R_pow_raises (x a : R) (e : exn) :
  R_pow x a = Raise e -> e = ValueError \/ e = OverflowError.
Proof.
  unfold R_pow, in_double_range.
  repeat match goal with
         | |- context [Rlt_dec ?u ?v] => destruct (Rlt_dec u v)
         | |- context [Req_dec_T ?u ?v] => destruct (Req_dec_T u v)
         end; intros H; try discriminate; injection H as <-; auto.
Qed.

Lemma spike_loop_nonneg (a : R) (series : list R) :
  forall (prev : R) (out : list R),
    spike_loop a prev series = Ok out -> Forall (fun y => (0 <= y)%R) out.
Proof.
  induction series as [|pt rest IH]; simpl; intros prev out H.
  - injection H as <-. constructor.
  - unfold Reqb in H. destruct (Req_dec_T pt 0) as [Hz|Hnz].
    + simpl in H. destruct (spike_loop a pt rest) as [ys|e] eqn:E;
        simpl in H; [|discriminate].
      injection H as <-. constructor; [lra | exact (IH _ _ E)].
    + destruct (R_pow (Rabs (pt - prev)) a) as [y|e] eqn:Ey;
        simpl in H; [|discriminate].
      destruct (spike_loop a pt rest) as [ys|e] eqn:E;
        simpl in H; [|discriminate].
      injection H as <-.
      constructor; [exact (R_pow_abs_nonneg _ _ Ey) | exact (IH _ _ E)].
Qed.

Lemma spike_loop_raises (a : R) (series : list R) :
  forall (prev : R) (e : exn),
    spike_loop a prev series = Raise e ->
    e = ValueError \/ e = OverflowError.
Proof.
  induction series as [|pt rest IH]; simpl; intros prev e H; [discriminate|].
  unfold Reqb in H. destruct (Req_dec_T pt 0) as [Hz|Hnz].
  - simpl in H. destruct (spike_loop a pt rest) as [ys|e'] eqn:E;
      simpl in H; [discriminate|].
    injection H as <-. exact (IH _ _ E).
  - destruct (R_pow (Rabs (pt - prev)) a) as [y|e'] eqn:Ey; simpl in H.
    + destruct (spike_loop a pt rest) as [ys|e''] eqn:E;
        simpl in H; [discriminate|].
      injection H as <-. exact (IH _ _ E).
    + injection H as <-. exact (R_pow_raises _ _ Ey).
Qed.

Lemma sum_nonneg (xs : list R) :
  Forall (fun y => (0 <= y)%R) xs -> (0 <= sum xs)%R.
Proof.
  unfold sum. cbn [add of_int R_Number].
  assert (G : forall acc : R, (0 <= acc)%R ->
                Forall (fun y => (0 <= y)%R) xs ->
                (0 <= fold_left Rplus xs acc)%R).
  { induction xs as [|x xs IH]; simpl; intros acc Ha H; [exact Ha|].
    inversion H; subst. apply IH; [lra | assumption]. }
  apply G. lra.
Qed.

Lemma Forall_tl {A : Type} (P : A -> Prop) (xs : list A) :
  Forall P xs -> Forall P (tl xs).
Proof. intros H. destruct H; [constructor | assumption]. Qed.

Lemma smoothing_loop_nonneg (N : Z) (series : list R) :
  forall queue : list R,
    Forall (fun y => (0 <= y)%R) queue ->
    Forall (fun y => (0 <= y)%R) series ->
    Forall (fun y => (0 <= y)%R) (smoothing_loop N queue series).
Proof.
  induction series as [|pt rest IH]; intros queue Hq Hs; [constructor|].
  inversion Hs; subst. cbn [smoothing_loop]. cbv zeta.
  assert (Hq' : Forall (fun y => (0 <= y)%R)
                  (if (N <? len (queue ++ [pt]))%Z
                   then tl (queue ++ [pt]) else queue ++ [pt])).
  { assert (Forall (fun y => (0 <= y)%R) (queue ++ [pt]))
      by (apply Forall_app; split; [assumption | constructor; auto]).
    destruct (N <? len (queue ++ [pt]))%Z; [apply Forall_tl|]; assumption. }
  constructor; [apply sum_nonneg; exact Hq' | apply IH; assumption].
Qed.

Lemma unit_normalization_R (series : list R) (c : Config R) :
  unit_normalization series c
  = Ok (map (fun pt => (pt / IZR (len series))%R) series).
Proof.
  destruct series as [|pt rest]; [reflexivity|].
  unfold unit_normalization. apply for_each_truediv_R.
  unfold len. simpl. lia.
Qed.

Lemma unit_normalization_nonneg (series : list R) :
  Forall (fun y => (0 <= y)%R) series ->
  Forall (fun y => (0 <= y)%R)
    (map (fun pt => (pt / IZR (len series))%R) series).
Proof.
  intros H. apply Forall_map. apply Forall_forall. intros pt Hin.
  rewrite Forall_forall in H. specialize (H pt Hin).
  destruct series as [|x rest]; [contradiction|].
  assert (Hn : (0 < IZR (len (x :: rest)))%R)
    by (apply IZR_lt; unfold len; simpl; lia).
  unfold Rdiv. apply Rmult_le_pos; [exact H|].
  left. apply Rinv_0_lt_compat. exact Hn.
Qed.

Lemma logarithmic_scaling_R (series : list R) (c : Config R) :
  series <> [] ->
  Forall (fun pt => (-1 < pt)%R) series ->
  logarithmic_scaling series c = Ok (map (fun pt => log10 (pt + 1)) series).
Proof.
  intros Hne Hall. unfold logarithmic_scaling.
  destruct series as [|x rest]; [contradiction|].
  cbn [py_min bind].
  apply (@for_each_total _ _ _ (fun pt : R => log10 (pt + 1))
           (fun pt => (-1 < pt)%R)); [|exact Hall].
  intros pt Hpt. cbn [math_log10 add of_int R_Number R_Math].
  apply R_log10_pos. lra.
Qed.

(** X6. Logarithmic scaling on reals: a non-empty series whose points are
    all above -1 is mapped point by point to [log10(pt + 1)], and
    non-negative points give non-negative results. *)
Theorem logarithmic_scaling_domain (series : list R) (c : Config R) :
  series <> [] ->
  Forall (fun pt => (-1 < pt)%R) series ->
  logarithmic_scaling series c = Ok (map (fun pt => log10 (pt + 1)) series)
  /\ (Forall (fun pt => (0 <= pt)%R) series ->
      Forall (fun y => (0 <= y)%R) (map (fun pt => log10 (pt + 1)) series)).
Proof.
  intros Hne Hall. split; [exact (logarithmic_scaling_R c Hne Hall)|].
  intros Hpos. apply Forall_map. apply Forall_forall. intros pt Hin.
  rewrite Forall_forall in Hpos. apply log10_nonneg. exact (Hpos pt Hin).
Qed.

Lemma logarithmic_scaling_domain_witness :
  logarithmic_scaling [0; 9]%R (config scenario_lib)
  = Ok (map (fun pt => log10 (pt + 1)) [0; 9]%R).
Proof.
  refine (proj1 (@logarithmic_scaling_domain [0; 9]%R (config scenario_lib) _ _)).
  - discriminate.
  - repeat constructor; lra.
Defined.

(** X7. Logarithmic scaling on reals fails with [ValueError] as soon as
    one point is -1 or less: no point is clamped or skipped. *)
Theorem logarithmic_scaling_out_of_domain (series : list R) (c : Config R)
  (pt : R) :
  In pt series -> (pt <= -1)%R ->
  logarithmic_scaling series c = Raise ValueError.
Proof.
  intros Hin Hpt. unfold logarithmic_scaling.
  destruct series as [|x rest]; [contradiction|].
  cbn [py_min bind].
  set (f := fun p : R => math_log10 (add p (of_int 1))).
  assert (Hf : exists e, f pt = Raise e).
  { exists ValueError. unfold f. cbn [math_log10 add of_int R_Number R_Math].
    unfold R_log10. destruct (Rlt_dec 0 (pt + 1)); [lra | reflexivity]. }
  destruct (@for_each_fails _ _ f (x :: rest) pt Hin Hf) as [e E].
  rewrite E. f_equal.
  destruct (@for_each_raises _ _ f (x :: rest) e E) as [q [_ Hq]].
  unfold f in Hq. cbn [math_log10 add of_int R_Number R_Math] in Hq.
  unfold R_log10 in Hq. destruct (Rlt_dec 0 (q + 1)); [discriminate|].
  injection Hq as <-. reflexivity.
Qed.

Lemma logarithmic_scaling_out_of_domain_witness :
  logarithmic_scaling [3; -1; 2]%R (config scenario_lib) = Raise ValueError.
Proof.
  refine (@logarithmic_scaling_out_of_domain [3; -1; 2]%R
            (config scenario_lib) (-1)%R _ _).
  - right. left. reflexivity.
  - lra.
Defined.

(** ** Spike normalization: constant series, negative exponents *)

Lemma spike_points_constant (a x : R) (n : nat) :
  x <> 0%R -> spike_points a x (repeat x n) = repeat 0%R n.
Proof.
  intros Hx. induction n as [|n IH]; [reflexivity|].
  cbn [repeat spike_points]. rewrite IH. f_equal.
  unfold spike_point, power. destruct (Req_dec_T x 0); [contradiction|].
  replace (x - x)%R with 0%R by lra. rewrite Rabs_R0.
  destruct (Req_dec_T 0 0); [reflexivity | lra].
Qed.

Lemma spike_points_constant_start (a x : R) (n : nat) :
  x <> 0%R ->
  spike_points a 0 (repeat x (S n)) = power (Rabs x) a :: repeat 0%R n.
Proof.
  intros Hx. cbn [repeat spike_points].
  rewrite spike_points_constant by exact Hx. f_equal.
  unfold spike_point. destruct (Req_dec_T x 0); [contradiction|].
  replace (x - 0)%R with x by lra. reflexivity.
Qed.

Lemma zeros_fit (n : nat) : Forall fits (repeat 0%R n).
Proof. induction n; simpl; constructor; [apply fits_zero | assumption]. Qed.

(** X8. A constant non-zero series keeps a single spike: with
    [alpha > 0], spike normalization maps [x, x, ..., x] to
    [|x|^alpha, 0, ..., 0] when |x|^alpha is in the range of a double,
    and raises [OverflowError] when |x| is in that range and |x|^alpha
    is not. *)
Theorem spike_constant_series (x : R) (n : nat) (c : Config R) :
  x <> 0%R -> (0 < alpha c)%R ->
  (fits (power (Rabs x) (alpha c)) ->
     spike_normalization (repeat x (S n)) c
     = Ok (power (Rabs x) (alpha c) :: repeat 0%R n))
  /\ (fits (Rabs x) -> ~ fits (power (Rabs x) (alpha c)) ->
      spike_normalization (repeat x (S n)) c = Raise OverflowError).
Proof.
  intros Hx Ha. unfold spike_normalization. cbn [of_int R_Number]. split.
  - intros Hfit. rewrite spike_loop_points; [| exact Ha |].
    + rewrite spike_points_constant_start by exact Hx. reflexivity.
    + rewrite spike_points_constant_start by exact Hx.
      constructor; [exact Hfit | apply zeros_fit].
  - intros _ Hover. apply spike_loop_overflow; [exact Ha|].
    rewrite spike_points_constant_start by exact Hx.
    intros H. inversion H; subst. contradiction.
Qed.

Lemma seven_fits : fits (power (Rabs 7) 1).
Proof.
  unfold fits, power. pose proof double_overflow_large.
  rewrite Rabs_right by lra.
  destruct (Req_dec_T 7 0); [lra|]. rewrite Rpower_1 by lra.
  unfold double_overflow in *. apply IZR_lt. reflexivity.
Qed.

Lemma spike_constant_series_witness :
  spike_normalization [7; 7; 7]%R (config scenario_lib)
  = Ok [power (Rabs 7) 1; 0; 0]%R.
Proof.
  refine (proj1 (@spike_constant_series 7%R 2 (config scenario_lib) _ _)
            seven_fits).
  - lra.
  - exact Rlt_0_1.
Defined.

Lemma R_pow_zero_negative (x a : R) :
  (a < 0)%R -> R_pow (Rabs (x - x)) a = Raise ValueError.
Proof.
  intros Ha. replace (x - x)%R with 0%R by lra. rewrite Rabs_R0.
  unfold R_pow.
  destruct (Rlt_dec 0 0); [lra|].
  destruct (Req_dec_T 0 0); [|lra].
  destruct (Rlt_dec 0 a); [lra|].
  destruct (Req_dec_T a 0); [lra | reflexivity].
Qed.

Lemma spike_loop_repeated_point (a x : R) (post : list R) :
  x <> 0%R -> (a < 0)%R ->
  forall (pre : list R) (prev : R),
    exists e : exn, spike_loop a prev (pre ++ x :: x :: post) = Raise e.
Proof.
  intros Hx Ha.
  assert (Hhead : forall (pt prev : R) (rest : list R),
            (exists e, spike_loop a pt rest = Raise e) ->
            exists e, spike_loop a prev (pt :: rest) = Raise e).
  { intros pt prev rest [e Hrest]. cbn [spike_loop]. rewrite Hrest.
    destruct (if eqb pt (of_int 0) then Ok (of_int 0)
              else math_pow (absf (sub pt prev)) a) as [y|e'];
      cbn [bind]; eexists; reflexivity. }
  induction pre as [|p pre IH]; intros prev.
  - cbn [app]. apply Hhead. exists ValueError. cbn [spike_loop].
    cbn [eqb of_int math_pow absf sub R_Number R_Math].
    rewrite Reqb_neq by exact Hx. rewrite R_pow_zero_negative by exact Ha.
    reflexivity.
  - cbn [app]. apply Hhead. apply IH.
Qed.

(** X9. With a negative [alpha], a series that contains two equal
    consecutive non-zero points is never transformed: spike
    normalization raises [ValueError] (zero to a negative power) or,
    if a power before that leaves the range of a double,
    [OverflowError]. *)
Theorem spike_negative_alpha (pre post : list R) (x : R) (c : Config R) :
  x <> 0%R -> (alpha c < 0)%R ->
  exists e : exn,
    spike_normalization (pre ++ x :: x :: post) c = Raise e
    /\ (e = ValueError \/ e = OverflowError).
Proof.
  intros Hx Ha. unfold spike_normalization.
  destruct (@spike_loop_repeated_point (alpha c) x post Hx Ha pre (of_int 0))
    as [e E].
  exists e. split; [exact E|]. exact (spike_loop_raises _ _ _ E).
Qed.

Lemma spike_negative_alpha_witness :
  exists e : exn,
    spike_normalization [1; 5; 5; 2]%R
      {| reference_length := 210; n_smooth := 80; alpha := (-1)%R;
         is_trend := None |}
    = Raise e
    /\ (e = ValueError \/ e = OverflowError).
Proof.
  refine (@spike_negative_alpha [1%R] [2%R] 5%R
            {| reference_length := 210; n_smooth := 80; alpha := (-1)%R;
               is_trend := None |} _ _).
  - lra.
  - simpl. lra.
Defined.

(** ** The whole pipeline on real series *)

Lemma pipeline_nonneg (series out : list R) (c : Config R) :
  pipeline series c = Ok out -> Forall (fun y => (0 <= y)%R) out.
Proof.
  unfold pipeline, spike_normalization, smoothing. intros H.
  destruct (spike_loop (alpha c) (of_int 0) series) as [s1|e] eqn:E1;
    cbn [bind] in H; [|discriminate].
  apply spike_loop_nonneg in E1.
  pose proof (@smoothing_loop_nonneg (n_smooth c) s1 [] (Forall_nil _) E1) as H2.
  rewrite unit_normalization_R in H. cbn [bind] in H.
  apply unit_normalization_nonneg in H2.
  unfold logarithmic_scaling in H.
  destruct (py_min _) as [m|e]; cbn [bind] in H; [|discriminate].
  refine (@for_each_Forall _ _ _ (fun y => (0 <= y)%R) (fun y => (0 <= y)%R)
            _ _ _ H2 H).
  intros pt y Hpt Hy. cbn [math_log10 add of_int R_Number R_Math] in Hy.
  rewrite R_log10_pos in Hy by lra. injection Hy as <-.
  apply (log10_nonneg Hpt).
Qed.







(** The library after [add_series] has stored [out] under the label. *)
Definition stored (self : Library R) (b : bool) (out : list R) : Library R :=
  let self' := set_config (set_is_trend b (config self)) self in
  if b then set_trends (trends self ++ [out]) self'
  else set_non_trends (non_trends self ++ [out]) self'.





(** ** Sizing: the windows it returns *)

Lemma sizing_trend_found (draw : Z) (series : list R) (c : Config R) :
  is_trend c = Some true ->
  (exists x : R, In x series /\ (-5000 < x)%R) ->
  exists i : nat,
    first_max series i
    /\ sizing draw series c
       = Ok (slice series (Z.of_nat i - reference_length c) (Z.of_nat i)).
Proof.
  intros Hlabel [x [Hin Hx]].
  rewrite (sizing_trend draw series c Hlabel).
  pose proof (scan_max_invariant series) as Hinv.
  destruct (scan_max series) as [[max_idx max_pt] idx].
  destruct Hinv as [_ Hinv]. cbn [fst].
  destruct max_idx as [i|].
  - destruct Hinv as [Hi [Hfirst _]].
    exists (Z.to_nat i). rewrite Z2Nat.id by exact Hi.
    split; [exact Hfirst | reflexivity].
  - destruct Hinv as [_ Hall]. exfalso.
    destruct (In_nth series x 0%R Hin) as [j [Hj Hnth]].
    specialize (Hall j Hj). lra.
Qed.

Section RealLibraries.

(** Every stored series is free of negative values. *)
Definition all_nonneg (lib : Library R) : Prop :=
  Forall (Forall (fun y => (0 <= y)%R)) (trends lib)
  /\ Forall (Forall (fun y => (0 <= y)%R)) (non_trends lib).

Lemma reachable_nonneg (lib : Library R) : reachable lib -> all_nonneg lib.
Proof.
  induction 1 as [kwargs lib Hinit | self series b Hr [IH1 IH2]
                 | self lib Hs [IHs1 IHs2] Hl [IHl1 IHl2]].
  - unfold Library_init in Hinit.
    destruct (kw_config kwargs); simpl in Hinit; [|discriminate].
    injection Hinit as <-. split; constructor.
  - destruct (reachable_invariant Hr) as [Ht _].
    rewrite (add_series_unfold series b self Ht). cbv zeta.
    destruct (pipeline series _) as [out|e] eqn:E.
    + apply pipeline_nonneg in E.
      destruct b; simpl; split; try assumption;
        apply Forall_app; split; try assumption; constructor; auto.
    + simpl. split; assumption.
  - destruct (combine_unfold self lib) as [_ [[E1|E1] [E2|E2]]];
      unfold all_nonneg; rewrite E1, E2; split; assumption.
Qed.

End RealLibraries.

(** X12. In every library the program builds over the reals, each stored
    series is non-empty and has no negative value; so trend sizing
    applied to a stored series never fails for want of a maximum: it
    returns the slice ending before the first maximum. *)
Theorem reachable_series_sized (lib : Library R) (s : TopicSeries R)
  (draw : Z) (c : Config R) :
  reachable lib ->
  In s (trends lib) \/ In s (non_trends lib) ->
  is_trend c = Some true ->
  s <> []
  /\ Forall (fun y => (0 <= y)%R) s
  /\ exists i : nat,
       first_max s i
       /\ sizing draw s c
          = Ok (slice s (Z.of_nat i - reference_length c) (Z.of_nat i)).
Proof.
  intros Hr Hin Hlabel.
  destruct (reachable_invariant Hr) as [_ [Hne1 Hne2]].
  destruct (reachable_nonneg Hr) as [Hp1 Hp2].
  rewrite Forall_forall in Hne1, Hne2, Hp1, Hp2.
  assert (Hne : s <> []) by (destruct Hin; auto).
  assert (Hpos : Forall (fun y => (0 <= y)%R) s) by (destruct Hin; auto).
  split; [exact Hne|]. split; [exact Hpos|].
  apply sizing_trend_found; [exact Hlabel|].
  destruct s as [|x rest]; [contradiction|].
  exists x. split; [left; reflexivity|].
  inversion Hpos; subst. lra.
Qed.

Lemma reachable_series_sized_witness :
  exists lib : Library R,
    reachable lib /\ Forall (fun s => s <> []) (trends lib).
Proof.
  exists (snd (add_series [4; 0; 6]%R true scenario_lib)).
  assert (Hr : reachable (snd (add_series [4; 0; 6]%R true scenario_lib))).
  { apply reach_add_series. apply (reach_init scenario_kwargs). reflexivity. }
  split; [exact Hr|]. apply Forall_forall. intros s Hs.
  exact (proj1 (@reachable_series_sized _ s 0 (sizing_config 1 true)
                  Hr (or_introl Hs) eq_refl)).
Defined.

(** X13. Under the non-trend label with [0 <= R <= len(series)], sizing
    returns a window of exactly R contiguous points starting at an offset
    between 0 and [len - R]; and each such offset is returned for some
    draw of the random generator. *)
Theorem sizing_non_trend_window (F : Type) (num : Number F) (draw : Z)
  (series : list F) (c : Config F) :
  is_trend c = Some false ->
  (0 <= reference_length c <= len series)%Z ->
  (exists k : nat,
     (Z.of_nat k <= len series - reference_length c)%Z
     /\ sizing draw series c
        = Ok (firstn (Z.to_nat (reference_length c)) (skipn k series))
     /\ len (firstn (Z.to_nat (reference_length c)) (skipn k series))
        = reference_length c)
  /\ (forall k : nat,
        (Z.of_nat k <= len series - reference_length c)%Z ->
        sizing (Z.of_nat k) series c
        = Ok (firstn (Z.to_nat (reference_length c)) (skipn k series))).
Proof.
  intros Hlabel HR.
  assert (Hpos : (0 < len series - reference_length c + 1)%Z) by lia.
  assert (Hat : forall d : Z,
            sizing d series c
            = Ok (firstn (Z.to_nat (reference_length c))
                    (skipn (Z.to_nat (d mod (len series - reference_length c + 1)))
                       series))).
  { intros d. unfold sizing, randint. rewrite Hlabel. cbn [bind].
    destruct (Z.ltb_spec (len series - reference_length c) 0); [lia|].
    cbn [bind]. rewrite Z.add_0_l, Z.sub_0_r.
    pose proof (Z.mod_pos_bound d _ Hpos) as Hm.
    rewrite slice_inside by lia. f_equal. f_equal. f_equal. lia. }
  split.
  - exists (Z.to_nat (draw mod (len series - reference_length c + 1))).
    pose proof (Z.mod_pos_bound draw _ Hpos) as Hm.
    split; [lia|]. split; [apply Hat|].
    unfold len in *. rewrite length_firstn, length_skipn. lia.
  - intros k Hk. rewrite Hat.
    rewrite Z.mod_small by lia. rewrite Nat2Z.id. reflexivity.
Qed.

Lemma sizing_non_trend_window_witness :
  sizing 1 [1; 2; 4; 8]%float (sizing_config 2 false) = Ok [2; 4]%float.
Proof.
  refine (proj2 (@sizing_non_trend_window float float_Number 0
                   [1; 2; 4; 8]%float (sizing_config 2 false) eq_refl _)
            1%nat _).
  - split; discriminate.
  - discriminate.
Defined.

(** X14. When the maximum of a real series is its first point, trend
    sizing returns the empty window, whatever [reference_length] is:
    nothing precedes the maximum. *)
Theorem sizing_trend_peak_first (draw : Z) (x : R) (rest : list R)
  (c : Config R) :
  is_trend c = Some true ->
  (-5000 < x)%R ->
  Forall (fun y => (y <= x)%R) rest ->
  sizing draw (x :: rest) c = Ok [].
Proof.
  intros Hlabel Hx Hmax.
  destruct (@sizing_trend_found draw (x :: rest) c Hlabel)
    as [i [[Hi [Hall Hfirst]] E]].
  { exists x. split; [left; reflexivity | exact Hx]. }
  assert (i = 0%nat) as ->.
  { destruct i as [|i]; [reflexivity|]. exfalso.
    specialize (Hfirst 0%nat (Nat.lt_0_succ i)). cbn [nth] in Hfirst.
    rewrite Forall_forall in Hmax.
    assert (Hin : In (nth i rest 0%R) rest)
      by (apply nth_In; simpl in Hi; lia).
    specialize (Hmax _ Hin). lra. }
  rewrite E. f_equal. unfold slice, slice_bound. cbv zeta.
  change (Z.of_nat 0) with 0%Z. cbn [Z.ltb Z.compare].
  pose proof (len_nonneg (x :: rest)) as Hn.
  rewrite (Z.min_l 0) by lia.
  replace (Z.to_nat (0 - _)) with 0%nat; [reflexivity|].
  destruct (Z.ltb_spec (0 - reference_length c) 0); lia.
Qed.

Lemma sizing_trend_peak_first_witness :
  sizing 0 [9; 3; 9; 1]%R (sizing_config 2 true) = Ok [].
Proof.
  refine (@sizing_trend_peak_first 0 9%R [3; 9; 1]%R (sizing_config 2 true)
            eq_refl _ _).
  - lra.
  - repeat constructor; lra.
Defined.

(** ** Combine: what it leaves alone, and repeating it *)

(** X15. [combine] takes collections only: the configuration and the
    list of transformations of [self] are the same after the call,
    whether it succeeds or fails, whatever [lib] was built with. *)
Theorem combine_keeps_config (F : Type) (self lib : Library F) :
  config (snd (combine lib self)) = config self
  /\ transformations (snd (combine lib self)) = transformations self.
Proof.
  unfold combine, seq_m, read, write, assert, ret, raise.
  destruct (trends lib) eqn:Tl, (trends self) eqn:Ts,
    (non_trends lib) eqn:Nl, (non_trends self) eqn:Ns;
    repeat (progress (simpl; rewrite ?Tl, ?Ts, ?Nl, ?Ns)); auto.
Qed.

(** X16. A successful [combine] with a library that holds something
    cannot be repeated: the second call finds its own earlier copy and
    stops with [AssertionError]. *)
Theorem combine_not_repeatable (F : Type) (self lib : Library F) :
  fst (combine lib self) = Ok tt ->
  trends lib <> [] \/ non_trends lib <> [] ->
  fst (combine lib (snd (combine lib self))) = Raise AssertionError.
Proof.
  unfold combine, seq_m, read, write, assert, ret, raise.
  destruct (trends lib) eqn:Tl, (trends self) eqn:Ts,
    (non_trends lib) eqn:Nl, (non_trends self) eqn:Ns;
    repeat (progress (simpl; rewrite ?Tl, ?Ts, ?Nl, ?Ns));
    intros Hok [H|H]; try reflexivity; try discriminate;
    try (now elim H).
Qed.

Lemma combine_not_repeatable_witness :
  fst (combine (sample_lib [] [[2%R]])
         (snd (combine (sample_lib [] [[2%R]]) (sample_lib [[1%R]] []))))
  = Raise AssertionError.
Proof.
  refine (@combine_not_repeatable R (sample_lib [[1%R]] [])
            (sample_lib [] [[2%R]]) eq_refl _).
  right. discriminate.
Defined.

(** X17. A library with both collections empty takes over the
    collections of the library it is combined with, and the call
    succeeds. *)
Theorem combine_into_empty (F : Type) (self lib : Library F) :
  trends self = [] -> non_trends self = [] ->
  fst (combine lib self) = Ok tt
  /\ trends (snd (combine lib self)) = trends lib
  /\ non_trends (snd (combine lib self)) = non_trends lib.
Proof.
  intros Ts Ns. unfold combine, seq_m, read, write, assert, ret, raise.
  destruct (trends lib) eqn:Tl, (non_trends lib) eqn:Nl;
    repeat (progress (simpl; rewrite ?Tl, ?Ts, ?Nl, ?Ns)); auto.
Qed.

Lemma combine_into_empty_witness :
  fst (combine (sample_lib [[1%R]] [[2%R]]) (sample_lib [] [])) = Ok tt
  /\ trends (snd (combine (sample_lib [[1%R]] [[2%R]]) (sample_lib [] [])))
     = [[1%R]]
  /\ non_trends (snd (combine (sample_lib [[1%R]] [[2%R]]) (sample_lib [] [])))
     = [[2%R]].
Proof.
  exact (@combine_into_empty R (sample_lib [] []) (sample_lib [[1%R]] [[2%R]])
           eq_refl eq_refl).
Defined.

(** ** Persistence: load, save, merge *)

Section PersistenceFacts.

Context {F : Type} {num : Number F} {math : Math F}.
Variable decode : list Byte.byte -> result (Library F).
Variable encode : Library F -> list Byte.byte.

Lemma load_library_content (fs : files) (file_name : string)
  (content : list Byte.byte) :
  fs file_name = Some content -> content <> [] ->
  load_library decode fs file_name
  = match decode content with
    | Raise EOFError => Raise KeyError
    | r => r
    end.
Proof.
  intros Hfs Hne. unfold load_library, open. rewrite Hfs. cbn [bind].
  destruct content as [|b rest]; [contradiction|]. cbn [pickle_load].
  destruct (decode (b :: rest)) as [lib|[]]; reflexivity.
Qed.

Lemma save_library_read (library : Library F) (fs : files) (file_name : string) :
  save_library encode library fs file_name file_name = Some (encode library).
Proof. unfold save_library, write_file. rewrite String.eqb_refl. reflexivity. Qed.

End PersistenceFacts.

(** X18. [load_library] passes on what it does not handle: a missing file
    is an [IOError], and for a non-empty file the outcome of the decoder
    is returned as it is, library or exception, unless that exception is
    [EOFError]. *)
Theorem load_library_passes_on (F : Type) (num : Number F) (math : Math F)
  (decode : list Byte.byte -> result (Library F)) (fs : files)
  (file_name : string) (content : list Byte.byte) :
  (fs file_name = None -> load_library decode fs file_name = Raise IOError)
  /\ (fs file_name = Some content -> content <> [] ->
      decode content <> Raise EOFError ->
      load_library decode fs file_name = decode content).
Proof.
  split.
  - intros Hfs. unfold load_library, open. rewrite Hfs. reflexivity.
  - intros Hfs Hne Hd. rewrite (load_library_content decode fs file_name Hfs Hne).
    destruct (decode content) as [lib|[]]; try reflexivity. now elim Hd.
Qed.

Lemma load_library_passes_on_witness :
  load_library (F := R) (fun _ => Raise UnpicklingError) (fun _ => None)
    "library.pkl" = Raise IOError
  /\ load_library (F := R) (fun _ => Raise UnpicklingError)
       (fun _ => Some [Byte.x80]) "library.pkl" = Raise UnpicklingError.
Proof.
  split.
  - exact (proj1 (@load_library_passes_on R R_Number R_Math
                    (fun _ => Raise UnpicklingError) (fun _ => None)
                    "library.pkl"%string []) eq_refl).
  - refine (proj2 (@load_library_passes_on R R_Number R_Math
                     (fun _ => Raise UnpicklingError)
                     (fun _ => Some [Byte.x80])
                     "library.pkl"%string [Byte.x80]) eq_refl _ _);
      discriminate.
Defined.

(** X19. Saving then loading: when the encoder writes a non-empty stream
    that the decoder reads back as the library, [load_library] on the
    saved file returns that library; and [save_library] changes no other
    file. *)
Theorem save_then_load (F : Type) (num : Number F) (math : Math F)
  (decode : list Byte.byte -> result (Library F))
  (encode : Library F -> list Byte.byte)
  (library : Library F) (fs : files) (file_name other : string) :
  encode library <> [] ->
  decode (encode library) = Ok library ->
  load_library decode (save_library encode library fs file_name) file_name
  = Ok library
  /\ (other <> file_name ->
      save_library encode library fs file_name other = fs other).
Proof.
  intros Hne Hround. split.
  - rewrite (load_library_content decode _ file_name
               (save_library_read encode library fs file_name) Hne).
    rewrite Hround. reflexivity.
  - intros Hother. unfold save_library, write_file.
    destruct (String.eqb_spec other file_name); [contradiction | reflexivity].
Qed.

Lemma save_then_load_witness :
  load_library (fun _ => Ok (sample_lib [[1%R]] []))
    (save_library (fun _ => [Byte.x80]) (sample_lib [[1%R]] [])
       (fun _ => None) "library.pkl")
    "library.pkl"
  = Ok (sample_lib [[1%R]] []).
Proof.
  refine (proj1 (@save_then_load R R_Number R_Math
                   (fun _ => Ok (sample_lib [[1%R]] []))
                   (fun _ => [Byte.x80]) (sample_lib [[1%R]] [])
                   (fun _ => None) "library.pkl"%string ""%string _ eq_refl)).
  discriminate.
Defined.

(** X20. [merge_library] on a path that does not exist returns the
    library as it is, and on an existing empty file it fails with
    [KeyError] and leaves the library as it is. *)
Theorem merge_library_no_store (F : Type) (num : Number F) (math : Math F)
  (decode : list Byte.byte -> result (Library F)) (fs : files)
  (file_name : string) (library : Library F) :
  (fs file_name = None ->
     merge_library decode fs file_name library = (Ok tt, library))
  /\ (fs file_name = Some [] ->
      merge_library decode fs file_name library = (Raise KeyError, library)).
Proof.
  split; intros Hfs; unfold merge_library, path_exists, load_library, open;
    rewrite Hfs; reflexivity.
Qed.

Lemma merge_library_no_store_witness :
  merge_library (fun _ => Raise UnpicklingError) (fun _ => None)
    "library.pkl" (sample_lib [[1%R]] [])
  = (Ok tt, sample_lib [[1%R]] []).
Proof.
  exact (proj1 (@merge_library_no_store R R_Number R_Math
                  (fun _ => Raise UnpicklingError) (fun _ => None)
                  "library.pkl"%string (sample_lib [[1%R]] [])) eq_refl).
Defined.

(** X21. [merge_library] on a file that holds a stored library is
    [combine] with that library; so when the stored library and the
    given one both hold trends the merge stops with [AssertionError] and
    the given library is unchanged. *)
Theorem merge_library_stored (F : Type) (num : Number F) (math : Math F)
  (decode : list Byte.byte -> result (Library F)) (fs : files)
  (file_name : string) (content : list Byte.byte)
  (stored library : Library F) :
  fs file_name = Some content -> content <> [] ->
  decode content = Ok stored ->
  merge_library decode fs file_name library = combine stored library
  /\ (trends stored <> [] -> trends library <> [] ->
      merge_library decode fs file_name library
      = (Raise AssertionError, library)).
Proof.
  intros Hfs Hne Hd.
  assert (E : merge_library decode fs file_name library = combine stored library).
  { unfold merge_library, path_exists.
    rewrite (load_library_content decode fs file_name Hfs Hne), Hfs, Hd.
    reflexivity. }
  split; [exact E|]. intros Hs Hl. rewrite E, combine_absorb. unfold seq_m.
  rewrite (absorb_collision trends (@set_trends F) stored library Hs Hl).
  reflexivity.
Qed.

Lemma merge_library_stored_witness :
  merge_library (fun _ => Ok (sample_lib [[1%R]] []))
    (fun _ => Some [Byte.x80]) "library.pkl" (sample_lib [[3%R]] [])
  = (Raise AssertionError, sample_lib [[3%R]] []).
Proof.
  refine (proj2 (@merge_library_stored R R_Number R_Math
                   (fun _ => Ok (sample_lib [[1%R]] []))
                   (fun _ => Some [Byte.x80]) "library.pkl"%string
                   [Byte.x80] (sample_lib [[1%R]] []) (sample_lib [[3%R]] [])
                   eq_refl _ eq_refl) _ _); discriminate.
Defined.


